(** * go-tmx: the tile-layer decoder of [tmx.go], embedded and verified

    The program comes first, in the order its parts depend on each other:
    the GID constants and error values, the records the decoder reads and
    writes, then [Map.DecodeGID], [getTileset], [Data.decodeBytes],
    [Layer.Decode], [Map.DecodedLayers], [Read] and [Polygon.Decode].  The
    notions the specification is stated with and the example data follow,
    then the properties.

    Conventions of the embedding.
    - A Go [uint32] is a [Z] in [0, 2^32); arithmetic on it wraps with
      [u32].  A Go [int] is a [Z] in [-2^63, 2^63) (a 64-bit platform);
      arithmetic on it wraps with [int_wrap].
    - A Go return [(v, err)] is [Return v err]; a [nil] slice is [[]], a
      [nil] pointer is [None].  A run-time panic (index out of range,
      [make] length out of range) is [Panic].
    - A [*Tileset] that points into [m.Tilesets] is the index of the
      element it points to. *)

From Stdlib Require Import ZArith Lia Bool.
From Stdlib Require Import Strings.String Strings.Ascii Strings.Byte.
From stdpp Require Import base option list numbers strings.

Local Open Scope Z_scope.

(** * The program *)

(** ** Machine integers *)

Definition u32 (x : Z) : Z := x mod 2 ^ 32.
Definition is_u32 (x : Z) : Prop := 0 <= x < 2 ^ 32.

Definition max_int : Z := 2 ^ 63 - 1.
Definition min_int : Z := - 2 ^ 63.
Definition is_int (x : Z) : Prop := min_int <= x <= max_int.
Definition int_wrap (x : Z) : Z := (x + 2 ^ 63) mod 2 ^ 64 - 2 ^ 63.
Definition int_add (a b : Z) : Z := int_wrap (a + b).
Definition int_mul (a b : Z) : Z := int_wrap (a * b).

(** [GID] and [ID] are both [uint32]. *)
Definition GID : Type := Z.
Definition ID : Type := Z.

(** ** GID constants *)

Definition GIDHorizontalFlip : Z := 0x80000000.
Definition GIDVerticalFlip : Z := 0x40000000.
Definition GIDDiagonalFlip : Z := 0x20000000.
Definition GIDFlip : Z :=
  Z.lor (Z.lor GIDHorizontalFlip GIDVerticalFlip) GIDDiagonalFlip.
Definition GIDMask : Z := 0x0fffffff.

(** ** Error values

    The five flag errors of the package, and the errors that come out of
    the Go standard library: a [*strconv.NumError] for the string it was
    raised on, and any other library error by an opaque code. *)

Inductive numErrKind : Type := ErrSyntax | ErrRange.

Inductive error : Type :=
| ErrUnsupportedEncoding
| ErrUnsupportedCompression
| ErrInvalidDecodedDataLen
| ErrInvalidGID
| ErrInvalidPointsField
| NumError (num : string) (kind : numErrKind)
| LibError (code : N).

Inductive outcome (A : Type) : Type :=
| Return (v : A) (err : option error)
| Panic.
Arguments Return {A} v err.
Arguments Panic {A}.

(** ** Records *)

Module Tileset.
(** Only [FirstGID] takes part in decoding; the fields kept besides it
    tell tilesets apart in examples. *)
Record t : Type := mk {
  FirstGID : GID;
  Source : string;
  Name : string;
  Tilecount : Z
}.
End Tileset.

(** A [*Tileset]: [None] is [nil], [Some i] is [&m.Tilesets[i]]. *)
Definition TilesetPtr : Type := option nat.

Module Data.
Record t : Type := mk {
  Encoding : string;
  Compression : string;
  Bytes : list byte
}.
End Data.

Module Layer.
Record t : Type := mk {
  Name : string;
  Width : Z;
  Height : Z;
  Data : Data.t
}.
End Layer.

Module Map.
Record t : Type := mk {
  Width : Z;
  Height : Z;
  TileWidth : Z;
  TileHeight : Z;
  Tilesets : list Tileset.t;
  Layers : list Layer.t
}.
End Map.

Module DecodedTile.
Record t : Type := mk {
  ID : ID;
  Tileset : TilesetPtr;
  HorizontalFlip : bool;
  VerticalFlip : bool;
  DiagonalFlip : bool;
  Nil : bool
}.
End DecodedTile.

Module DecodedLayer.
Record t : Type := mk {
  DecodedTiles : list DecodedTile.t;
  Tileset : TilesetPtr;
  Empty : bool
}.
End DecodedLayer.

Module Point.
Record t : Type := mk { X : Z; Y : Z }.
End Point.

Module Polygon.
Record t : Type := mk { Points : string }.
End Polygon.

(** [NilTile = DecodedTile{Nil: true}]: every other field has its zero
    value. *)
Definition NilTile : DecodedTile.t :=
  DecodedTile.mk 0 None false false false true.

(** Layer encodings and compressions. *)
Definition XML : string := "".
Definition CSV : string := "csv".
Definition Base64 : string := "base64".
Definition Uncompressed : string := "".
Definition Gzip : string := "gzip".
Definition Zlib : string := "zlib".

(** ** Map.DecodeGID *)

(** [gid &^ GIDFlip] *)
Definition umaskedGID (gid : GID) : GID := Z.ldiff gid GIDFlip.

(** The loop [for i := len(m.Tilesets) - 1; i >= 0; i--], entered with
    [n = i + 1] indices left to visit. *)
Fixpoint DecodeGID_loop (m : Map.t) (gid : GID) (n : nat)
  : outcome DecodedTile.t :=
  match n with
  | O => Return NilTile (Some ErrInvalidGID)
  | S i =>
      match Map.Tilesets m !! i with
      | None => Panic
      | Some ts =>
          if Tileset.FirstGID ts <=? umaskedGID gid then
            Return
              (DecodedTile.mk
                 (u32 (umaskedGID gid - Tileset.FirstGID ts))
                 (Some i)
                 (negb (Z.land gid GIDHorizontalFlip =? 0))
                 (negb (Z.land gid GIDVerticalFlip =? 0))
                 (negb (Z.land gid GIDDiagonalFlip =? 0))
                 false)
              None
          else DecodeGID_loop m gid i
      end
  end.

Definition DecodeGID (m : Map.t) (gid : GID) : outcome DecodedTile.t :=
  if gid =? 0 then Return NilTile None
  else DecodeGID_loop m gid (length (Map.Tilesets m)).

(** ** getTileset

    The loop carries the local [tileset]; [return tileset, false, true]
    leaves it early.  [m] is not read. *)
Fixpoint getTileset_loop (tiles : list DecodedTile.t) (tileset : TilesetPtr)
  : TilesetPtr * bool * bool :=
  match tiles with
  | [] =>
      match tileset with
      | None => (None, true, false)
      | Some _ => (tileset, false, false)
      end
  | tile :: rest =>
      if negb (DecodedTile.Nil tile) then
        match tileset with
        | None => getTileset_loop rest (DecodedTile.Tileset tile)
        | Some _ =>
            if bool_decide (tileset ≠ DecodedTile.Tileset tile)
            then (tileset, false, true)
            else getTileset_loop rest tileset
        end
      else getTileset_loop rest tileset
  end.

Definition getTileset (m : Map.t) (l : DecodedLayer.t)
  : TilesetPtr * bool * bool :=
  getTileset_loop (DecodedLayer.DecodedTiles l) None.

(** ** Slices *)

Definition len {A : Type} (s : list A) : Z := Z.of_nat (length s).

(** [s[i]] *)
Definition index {A : Type} (s : list A) (i : Z) : option A :=
  if i <? 0 then None else s !! Z.to_nat i.

(** [s[i] = v] *)
Definition assign {A : Type} (s : list A) (i : Z) (v : A) : option (list A) :=
  if (0 <=? i) && (i <? len s) then Some (<[Z.to_nat i := v]> s) else None.

(** [make([]T, len(s))] for a slice [s] that exists and whose elements are
    as large as those of [T] ([Polygon.Decode]: a string header and a
    [Point] are both two words): the allocation is as large as one that
    has been made, so only a negative length can panic. *)
Definition make {A : Type} (zero : A) (n : Z) : option (list A) :=
  if n <? 0 then None else Some (replicate (Z.to_nat n) zero).

(** [make([]T, n)] for a computed length [n] and elements of [size] bytes
    (the runtime's [makeslice]): a negative length panics, and so does a
    length whose [n * size] bytes exceed what can be allocated.  The bound
    taken here is the range of [int]; the limit of a platform is lower,
    but [Layer.Decode] reaches its [make] only with [4 * n], wrapped, equal
    to the length of the payload, so for a payload that exists either
    [4 * n] is that length, within every limit, or [4 * n] is beyond the
    range of [int].  Running out of memory is not modelled. *)
Definition makeslice {A : Type} (zero : A) (size n : Z) : option (list A) :=
  if (n <? 0) || (max_int <? n * size) then None
  else Some (replicate (Z.to_nat n) zero).

(** ** The Go standard library

    [tmx.go] calls into [bytes], [encoding/base64], [compress/gzip],
    [compress/zlib], [io/ioutil] and [encoding/xml]; none of them is part
    of the package, so they are an interface.  A reader is the pair
    [ioutil.ReadAll] returns when it drains it: the bytes delivered, and
    the error that ended the stream if it did not end at EOF. *)

Definition reader : Type := (list byte * option error)%type.

Record Lib : Type := {
  bytes_TrimSpace : list byte -> list byte;
  (** [base64.NewDecoder(base64.StdEncoding, bytes.NewReader(b))] *)
  base64_NewDecoder : list byte -> reader;
  gzip_NewReader : reader -> reader * option error;
  zlib_NewReader : reader -> reader * option error;
  (** [xml.NewDecoder(r).Decode(out)] on a fresh [Map]: the map it fills
      in, and its error *)
  xml_Decode : list byte -> Map.t * option error
}.

Definition ioutil_ReadAll (r : reader) : outcome (list byte) :=
  Return (fst r) (snd r).

Definition byteZ (b : byte) : Z := Z.of_N (Byte.to_N b).

Section Decoder.
Variable L : Lib.

(** ** Data.decodeBytes *)
Definition decodeBytes (d : Data.t) : outcome (list byte) :=
  let encoder := base64_NewDecoder L (bytes_TrimSpace L (Data.Bytes d)) in
  if String.eqb (Data.Compression d) Gzip then
    match gzip_NewReader L encoder with
    | (_, Some err) => Return [] (Some err)
    | (zr, None) => ioutil_ReadAll zr
    end
  else if String.eqb (Data.Compression d) Zlib then
    match zlib_NewReader L encoder with
    | (_, Some err) => Return [] (Some err)
    | (zr, None) => ioutil_ReadAll zr
    end
  else Return [] (Some ErrUnsupportedCompression).

(** ** Layer.Decode *)

(** The inner loop [for x := 0; x < l.Width; x++] with [n] iterations
    left; it carries [j] and [gids]. *)
Fixpoint Decode_cols (dataBytes : list byte) (width y : Z) (n : nat)
    (x j : Z) (gids : list GID) : option (Z * list GID) :=
  match n with
  | O => Some (j, gids)
  | S n' =>
      b0 ← index dataBytes j;
      b1 ← index dataBytes (int_add j 1);
      b2 ← index dataBytes (int_add j 2);
      b3 ← index dataBytes (int_add j 3);
      let gid :=
        u32 (u32 (u32 (byteZ b0 + u32 (Z.shiftl (byteZ b1) 8))
                  + u32 (Z.shiftl (byteZ b2) 16))
             + u32 (Z.shiftl (byteZ b3) 24)) in
      gids' ← assign gids (int_add (int_mul y width) x) gid;
      Decode_cols dataBytes width y n' (int_add x 1) (int_add j 4) gids'
  end.

(** The outer loop [for y := 0; y < l.Height; y++] with [n] iterations
    left. *)
Fixpoint Decode_rows (dataBytes : list byte) (width : Z) (n : nat)
    (y j : Z) (gids : list GID) : option (Z * list GID) :=
  match n with
  | O => Some (j, gids)
  | S n' =>
      '(j', gids') ← Decode_cols dataBytes width y (Z.to_nat width) 0 j gids;
      Decode_rows dataBytes width n' (int_add y 1) j' gids'
  end.

Definition Layer_Decode (l : Layer.t) : outcome (list GID) :=
  match decodeBytes (Layer.Data l) with
  | Panic => Panic
  | Return _ (Some err) => Return [] (Some err)
  | Return dataBytes None =>
      if negb (len dataBytes
               =? int_mul (int_mul (Layer.Width l) (Layer.Height l)) 4)
      then Return [] (Some ErrInvalidDecodedDataLen)
      else
        match makeslice 0 4 (int_mul (Layer.Width l) (Layer.Height l)) with
        | None => Panic
        | Some gids =>
            match Decode_rows dataBytes (Layer.Width l)
                    (Z.to_nat (Layer.Height l)) 0 0 gids with
            | None => Panic
            | Some (_, gids') => Return gids' None
            end
        end
  end.

(** ** Map.DecodedLayers *)

(** The inner loop over [gids]; an error leaves the whole function. *)
Fixpoint DecodedLayers_tiles (m : Map.t) (gids : list GID)
    (tiles : list DecodedTile.t) : outcome (list DecodedTile.t) :=
  match gids with
  | [] => Return tiles None
  | gid :: rest =>
      match DecodeGID m gid with
      | Panic => Panic
      | Return _ (Some err) => Return [] (Some err)
      | Return t None => DecodedLayers_tiles m rest (tiles ++ [t])
      end
  end.

Fixpoint DecodedLayers_loop (m : Map.t) (layers : list Layer.t)
    (out : list DecodedLayer.t) : outcome (list DecodedLayer.t) :=
  match layers with
  | [] => Return out None
  | l :: rest =>
      match Layer_Decode l with
      | Panic => Panic
      | Return _ (Some err) => Return [] (Some err)
      | Return gids None =>
          match DecodedLayers_tiles m gids [] with
          | Panic => Panic
          | Return _ (Some err) => Return [] (Some err)
          | Return tiles None =>
              DecodedLayers_loop m rest
                (out ++ [DecodedLayer.mk tiles None false])
          end
      end
  end.

Definition DecodedLayers (m : Map.t) : outcome (list DecodedLayer.t) :=
  DecodedLayers_loop m (Map.Layers m) [].

(** ** Read *)

(** One iteration of the loop of [Read]: the value of the local [l] when
    the iteration ends.  [l := layers[i]] copies the struct. *)
Definition Read_iter (out : Map.t) (l : DecodedLayer.t) : DecodedLayer.t :=
  match getTileset out l with
  | (tileset, isEmpty, usesMultipleTilesets) =>
      if usesMultipleTilesets then l
      else DecodedLayer.mk (DecodedLayer.DecodedTiles l) tileset isEmpty
  end.

(** The loop of [Read] over [layers[i..]]: the slice [layers] when it
    ends.  Nothing is stored back into it. *)
Fixpoint Read_loop (out : Map.t) (layers rest : list DecodedLayer.t)
  : list DecodedLayer.t :=
  match rest with
  | [] => layers
  | l :: rest' =>
      let l' := Read_iter out l in
      Read_loop out layers rest'
  end.

Definition Read (r : list byte) : outcome (option Map.t) :=
  match xml_Decode L r with
  | (_, Some err) => Return None (Some err)
  | (out, None) =>
      match DecodedLayers out with
      | Panic => Panic
      | Return _ (Some err) => Return None (Some err)
      | Return layers None =>
          let layers' := Read_loop out layers layers in
          Return (Some out) None
      end
  end.
End Decoder.

(** ** strings.Split and strconv.Atoi

    Both are Go standard library; they are written out here, after the
    library's documented behaviour, because the examples of
    [Polygon.Decode] have to run. *)

(** [strings.Split(s, sep)] for a separator of one byte, as the first part
    and the parts after it: the result is never empty. *)
Fixpoint Split_parts (s : string) (sep : ascii) : string * list string :=
  match s with
  | EmptyString => (EmptyString, [])
  | String c s' =>
      let '(part, parts) := Split_parts s' sep in
      if Ascii.eqb c sep then (EmptyString, part :: parts)
      else (String c part, parts)
  end.

Definition Split (s : string) (sep : ascii) : list string :=
  let '(part, parts) := Split_parts s sep in part :: parts.

Definition max_uint64 : Z := 2 ^ 64 - 1.

Definition digit (c : ascii) : option Z :=
  let n := Z.of_nat (nat_of_ascii c) in
  if (48 <=? n) && (n <=? 57) then Some (n - 48) else None.

(** [strconv.ParseUint(s, 10, 64)] after its check for the empty string:
    the digits are read left to right, a byte that is no digit is a syntax
    error, leaving the range of [uint64] is a range error. *)
Fixpoint parseUint (s : string) (n : Z) : Z * option numErrKind :=
  match s with
  | EmptyString => (n, None)
  | String c s' =>
      match digit c with
      | None => (0, Some ErrSyntax)
      | Some d =>
          if max_uint64 <? n * 10 + d then (max_uint64, Some ErrRange)
          else parseUint s' (n * 10 + d)
      end
  end.

Definition Atoi (s : string) : Z * option error :=
  let '(neg, body) :=
    match s with
    | String "-"%char r => (true, r)
    | String "+"%char r => (false, r)
    | _ => (false, s)
    end in
  match body with
  | EmptyString => (0, Some (NumError s ErrSyntax))
  | _ =>
      match parseUint body 0 with
      | (_, Some ErrSyntax) => (0, Some (NumError s ErrSyntax))
      | (un, _) =>
          if negb neg && (max_int <? un)
          then (max_int, Some (NumError s ErrRange))
          else if neg && (- min_int <? un)
          then (min_int, Some (NumError s ErrRange))
          else (if neg then - un else un, None)
      end
  end.

(** ** Polygon.Decode *)

(** [out[i].X = x] and [out[i].Y = y] *)
Definition set_X (out : list Point.t) (i : nat) (x : Z)
  : option (list Point.t) :=
  p ← out !! i; Some (<[i := Point.mk x (Point.Y p)]> out).

Definition set_Y (out : list Point.t) (i : nat) (y : Z)
  : option (list Point.t) :=
  p ← out !! i; Some (<[i := Point.mk (Point.X p) y]> out).

(** The loop [for i, part := range parts], at index [i] with [parts] left
    to visit. *)
Fixpoint Polygon_Decode_loop (parts : list string) (i : nat)
    (out : list Point.t) : outcome (list Point.t) :=
  match parts with
  | [] => Return out None
  | part :: rest =>
      let coords := Split part ","%char in
      if negb (len coords =? 2) then Return [] (Some ErrInvalidPointsField)
      else
        match coords !! 0%nat, coords !! 1%nat with
        | Some c0, Some c1 =>
            let '(x, err) := Atoi c0 in
            match set_X out i x with
            | None => Panic
            | Some out1 =>
                match err with
                | Some e => Return [] (Some e)
                | None =>
                    let '(y, err) := Atoi c1 in
                    match set_Y out1 i y with
                    | None => Panic
                    | Some out2 =>
                        match err with
                        | Some e => Return [] (Some e)
                        | None => Polygon_Decode_loop rest (S i) out2
                        end
                    end
                end
            end
        | _, _ => Panic
        end
  end.

Definition Polygon_Decode (p : Polygon.t) : outcome (list Point.t) :=
  let parts := Split (Polygon.Points p) " "%char in
  match make (Point.mk 0 0) (len parts) with
  | None => Panic
  | Some out => Polygon_Decode_loop parts 0 out
  end.

(** * Notions of the specification *)

(** ** The resolver *)

(** The low [n] bits of an identifier. *)
Definition low_bits (n : Z) (r : Z) : Z := r mod 2 ^ n.

(** Non-empty tiles point at a tileset: what [DecodeGID] produces. *)
Definition decoded_tile_ok (t : DecodedTile.t) : Prop :=
  DecodedTile.Nil t = false -> DecodedTile.Tileset t <> None.

(** The tile [DecodeGID] builds when its scan stops at index [i], on the
    tileset [ts]. *)
Definition tile_at (gid : GID) (i : nat) (ts : Tileset.t) : DecodedTile.t :=
  DecodedTile.mk (u32 (umaskedGID gid - Tileset.FirstGID ts)) (Some i)
    (negb (Z.land gid GIDHorizontalFlip =? 0))
    (negb (Z.land gid GIDVerticalFlip =? 0))
    (negb (Z.land gid GIDDiagonalFlip =? 0)) false.


(** ** The tile decoder *)

(** [b0 | b1<<8 | b2<<16 | b3<<24] *)
Definition le32 (b0 b1 b2 b3 : byte) : Z :=
  Z.lor (Z.lor (Z.lor (byteZ b0) (Z.shiftl (byteZ b1) 8))
               (Z.shiftl (byteZ b2) 16))
        (Z.shiftl (byteZ b3) 24).

(** The little-endian value of the [k]-th group of four consecutive
    bytes. *)
Definition group (s : list byte) (k : nat) : option Z :=
  b0 ← s !! (4 * k)%nat;
  b1 ← s !! (4 * k + 1)%nat;
  b2 ← s !! (4 * k + 2)%nat;
  b3 ← s !! (4 * k + 3)%nat;
  Some (le32 b0 b1 b2 b3).

(** The four little-endian bytes of a RID. *)
Definition byte_of_Z (z : Z) : byte :=
  default x00 (Byte.of_N (Z.to_N (z mod 256))).

Definition le_bytes (r : Z) : list byte :=
  [byte_of_Z r; byte_of_Z (Z.shiftr r 8);
   byte_of_Z (Z.shiftr r 16); byte_of_Z (Z.shiftr r 24)].

(** ** The orchestrator *)

(** Layer [l] decodes, and each of its RIDs resolves, to the decoded layer
    [d]. *)
Definition layer_decodes (L : Lib) (m : Map.t) (l : Layer.t)
    (d : DecodedLayer.t) : Prop :=
  exists gids,
    Layer_Decode L l = Return gids None /\
    Forall2 (fun g t => DecodeGID m g = Return t None)
            gids (DecodedLayer.DecodedTiles d) /\
    DecodedLayer.Tileset d = None /\ DecodedLayer.Empty d = false.

(** Layer [l] fails with [e]: in [Layer.Decode], or at the first of its
    RIDs that does not resolve. *)
Definition layer_fails (L : Lib) (m : Map.t) (l : Layer.t) (e : error)
  : Prop :=
  (exists v, Layer_Decode L l = Return v (Some e)) \/
  (exists gids g1 g g2 t,
      Layer_Decode L l = Return gids None /\ gids = g1 ++ g :: g2 /\
      Forall (fun g' => exists t', DecodeGID m g' = Return t' None) g1 /\
      DecodeGID m g = Return t (Some e)).

(** ** The point decoder *)

(** The part splits on the comma into exactly two substrings, and they
    parse as the coordinates of [pt]. *)
Definition part_parses (part : string) (pt : Point.t) : Prop :=
  exists a b,
    Split part ","%char = [a; b] /\
    Atoi a = (Point.X pt, None) /\ Atoi b = (Point.Y pt, None).

(** The part fails with [e]: it does not split into exactly two
    substrings and [e] is [ErrInvalidPointsField], or it does and [e] is
    the parse error of the first substring, or of the second after the
    first one parsed. *)
Definition part_fails (part : string) (e : error) : Prop :=
  (len (Split part ","%char) <> 2 /\ e = ErrInvalidPointsField) \/
  (exists a b v, Split part ","%char = [a; b] /\ Atoi a = (v, Some e)) \/
  (exists a b x v, Split part ","%char = [a; b] /\
                   Atoi a = (x, None) /\ Atoi b = (v, Some e)).

(** * Example data *)

Definition tilesets_1_5 : list Tileset.t :=
  [Tileset.mk 1 "ground.tsx" "ground" 4; Tileset.mk 5 "trees.tsx" "trees" 8].

Definition map_1_5 : Map.t := Map.mk 2 2 16 16 tilesets_1_5 [].

Definition tile_ground_3 : DecodedTile.t :=
  DecodedTile.mk 3 (Some 0%nat) false false false false.
Definition tile_trees_0 : DecodedTile.t :=
  DecodedTile.mk 0 (Some 1%nat) true false false false.

Definition layer_mixed : DecodedLayer.t :=
  DecodedLayer.mk [tile_ground_3; NilTile; tile_trees_0] None false.
Definition layer_blank : DecodedLayer.t :=
  DecodedLayer.mk [NilTile; NilTile] None false.

(** A library instance for the examples: every reader hands through what
    it is given, so a payload stands for its own decompressed bytes, and
    the XML decoder returns the map passed here. *)
Definition example_lib (m : Map.t) : Lib :=
  {| bytes_TrimSpace := fun b => b;
     base64_NewDecoder := fun b => (b, None);
     gzip_NewReader := fun r => (r, None);
     zlib_NewReader := fun r => (r, None);
     xml_Decode := fun _ => (m, None) |}.

Definition layer_one_tile : Layer.t :=
  Layer.mk "ground" 1 1 (Data.mk Base64 Gzip [x04; x00; x00; x00]).
Definition layer_csv : Layer.t :=
  Layer.mk "walls" 2 2 (Data.mk CSV Uncompressed (list_byte_of_string "1,2,3,4")).

Definition map_one_layer : Map.t :=
  Map.mk 1 1 16 16 tilesets_1_5 [layer_one_tile].
Definition map_csv_layer : Map.t :=
  Map.mk 1 1 16 16 tilesets_1_5 [layer_one_tile; layer_csv; layer_one_tile].

(** A layer whose dimensions overflow [int]: [2^62 * 4 * 4] wraps to 0. *)
Definition layer_overflow : Layer.t :=
  Layer.mk "wide" (2 ^ 62) 4 (Data.mk Base64 Gzip []).

(** A layer whose width and height are both negative, with the four
    little-endian bytes of the RID 300 as payload. *)
Definition layer_negative : Layer.t :=
  Layer.mk "ground" (-1) (-1) (Data.mk Base64 Gzip (le_bytes 300)).

(** * The rest of the package *)

(** ** DecodedTile.IsNil *)

Definition IsNil (t : DecodedTile.t) : bool := DecodedTile.Nil t.

(** ** ReadFile

    [os.Open] is the file's contents or an error; closing the file has no
    result that [ReadFile] uses. *)
Definition ReadFile (L : Lib) (os_Open : string -> list byte * option error)
    (filepath : string) : outcome (option Map.t) :=
  match os_Open filepath with
  | (_, Some err) => Return None (Some err)
  | (f, None) =>
      match Read L f with
      | Panic => Panic
      | Return _ (Some err) => Return None (Some err)
      | Return out None => Return out None
      end
  end.

(** * Further notions *)

(** The tilesets are listed in ascending order of their first
    identifiers. *)
Definition ascending (tilesets : list Tileset.t) : Prop :=
  forall (i j : nat) (a b : Tileset.t),
    (i <= j)%nat -> tilesets !! i = Some a -> tilesets !! j = Some b ->
    Tileset.FirstGID a <= Tileset.FirstGID b.

(** The weight of a flag bit in a RID. *)
Definition flag_weight (set : bool) (bit : Z) : Z :=
  if set then 2 ^ bit else 0.

(** The RID a resolved tile of the tileset [ts] stands for. *)
Definition RID_of (ts : Tileset.t) (t : DecodedTile.t) : Z :=
  Tileset.FirstGID ts + DecodedTile.ID t
  + flag_weight (DecodedTile.HorizontalFlip t) 31
  + flag_weight (DecodedTile.VerticalFlip t) 30
  + flag_weight (DecodedTile.DiagonalFlip t) 29.

(** The payload of a sequence of RIDs: four little-endian bytes each. *)
Definition encode_RIDs (rids : list GID) : list byte :=
  flat_map le_bytes rids.

(** How often the character [c] occurs in [s]. *)
Fixpoint count_char (c : ascii) (s : string) : nat :=
  match s with
  | EmptyString => 0
  | String c' s' => (if Ascii.eqb c' c then 1 else 0) + count_char c s'
  end.

(** Every character of [s] passes [f]. *)
Fixpoint all_chars (f : ascii -> bool) (s : string) : bool :=
  match s with
  | EmptyString => true
  | String c s' => f c && all_chars f s'
  end.

(** The characters a points string that decodes is made of: the decimal
    digits, the two signs, the comma and the space. *)
Definition point_char (c : ascii) : bool :=
  match digit c with
  | Some _ => true
  | None =>
      Ascii.eqb c "+" || Ascii.eqb c "-" || Ascii.eqb c "," || Ascii.eqb c " "
  end.

(** ** Writing points

    The text of a list of points as Tiled writes integer coordinates:
    [x,y] pairs in decimal, separated by one space.  [Itoa] is
    [strconv.Itoa]. *)

From Stdlib Require DecimalString DecimalPos.

Definition Itoa (z : Z) : string :=
  DecimalString.NilEmpty.string_of_int (Z.to_int z).

Definition format_point (pt : Point.t) : string :=
  String.append (Itoa (Point.X pt)) (String "," (Itoa (Point.Y pt))).

Fixpoint format_points (pts : list Point.t) : string :=
  match pts with
  | [] => EmptyString
  | pt :: rest =>
      match rest with
      | [] => format_point pt
      | _ :: _ =>
          String.append (format_point pt) (String " " (format_points rest))
      end
  end.

(** The value of the decimal digits [d] read after the digits that gave
    [acc]. *)
Fixpoint horner (d : Decimal.uint) (acc : Z) : Z :=
  match d with
  | Decimal.Nil => acc
  | Decimal.D0 l => horner l (acc * 10 + 0)
  | Decimal.D1 l => horner l (acc * 10 + 1)
  | Decimal.D2 l => horner l (acc * 10 + 2)
  | Decimal.D3 l => horner l (acc * 10 + 3)
  | Decimal.D4 l => horner l (acc * 10 + 4)
  | Decimal.D5 l => horner l (acc * 10 + 5)
  | Decimal.D6 l => horner l (acc * 10 + 6)
  | Decimal.D7 l => horner l (acc * 10 + 7)
  | Decimal.D8 l => horner l (acc * 10 + 8)
  | Decimal.D9 l => horner l (acc * 10 + 9)
  end.

(** * Properties *)

(** ** Machine integers and bits *)

Lemma u32_small (x : Z) : is_u32 x -> u32 x = x.
Proof. unfold is_u32, u32. intros H. apply Z.mod_small. lia. Qed.

Lemma int_wrap_small (x : Z) : is_int x -> int_wrap x = x.
Proof.
  unfold is_int, int_wrap, min_int, max_int. intros H.
  rewrite Z.mod_small; lia.
Qed.

Lemma int_add_small (a b : Z) : is_int (a + b) -> int_add a b = a + b.
Proof. apply int_wrap_small. Qed.

Lemma int_mul_small (a b : Z) : is_int (a * b) -> int_mul a b = a * b.
Proof. apply int_wrap_small. Qed.

(** Wrapping keeps the value modulo [2^64]. *)
Lemma int_mul_mod (a b : Z) : int_mul a b mod 2 ^ 64 = (a * b) mod 2 ^ 64.
Proof.
  unfold int_mul, int_wrap. change (2 ^ 64) with 18446744073709551616.
  change (2 ^ 63) with 9223372036854775808.
  Z.div_mod_to_equations. lia.
Qed.

Lemma testbit_above (x n k : Z) :
  0 <= x < 2 ^ n -> 0 <= n <= k -> Z.testbit x k = false.
Proof.
  intros Hx Hk. destruct (Z.eq_dec x 0) as [->|Hne].
  - apply Z.bits_0.
  - apply Z.bits_above_log2; [lia|].
    apply Z.lt_le_trans with n; [|lia].
    apply Z.log2_lt_pow2; lia.
Qed.

Lemma GIDFlip_bits (k : Z) :
  0 <= k -> Z.testbit GIDFlip k = (29 <=? k) && (k <? 32).
Proof.
  intros Hk. change GIDFlip with (Z.shiftl 7 29).
  rewrite Z.shiftl_spec by lia.
  destruct (Z.leb_spec 29 k) as [H29|H29]; simpl.
  - destruct (Z.ltb_spec k 32) as [H32|H32].
    + assert (Hc : k - 29 = 0 \/ k - 29 = 1 \/ k - 29 = 2) by lia.
      destruct Hc as [-> | [-> | ->]]; reflexivity.
    + apply (testbit_above 7 3); lia.
  - apply Z.testbit_neg_r. lia.
Qed.

Lemma umaskedGID_low_bits (r : Z) :
  is_u32 r -> umaskedGID r = low_bits 29 r.
Proof.
  intros Hr. unfold umaskedGID, low_bits. apply Z.bits_inj'. intros k Hk.
  rewrite Z.ldiff_spec, GIDFlip_bits by lia.
  destruct (Z.ltb_spec k 29) as [Hlo|Hhi].
  - rewrite Z.mod_pow2_bits_low by lia.
    replace (29 <=? k) with false by (symmetry; apply Z.leb_gt; lia).
    simpl. apply andb_true_r.
  - rewrite Z.mod_pow2_bits_high by lia.
    replace (29 <=? k) with true by (symmetry; apply Z.leb_le; lia).
    destruct (Z.ltb_spec k 32) as [H32|H32]; simpl.
    + apply andb_false_r.
    + rewrite (testbit_above r 32 k) by (unfold is_u32 in Hr; lia).
      reflexivity.
Qed.

Lemma low_bits_range (n r : Z) : 0 <= n -> 0 <= low_bits n r < 2 ^ n.
Proof. intros Hn. unfold low_bits. apply Z.mod_pos_bound. lia. Qed.

Lemma land_pow2_flag (r k : Z) :
  0 <= k -> negb (Z.land r (2 ^ k) =? 0) = Z.testbit r k.
Proof.
  intros Hk. destruct (Z.testbit r k) eqn:Hb.
  - apply negb_true_iff, Z.eqb_neq. intros H0.
    assert (Hl : Z.testbit (Z.land r (2 ^ k)) k = true).
    { rewrite Z.land_spec, Hb, Z.pow2_bits_true by lia. reflexivity. }
    rewrite H0, Z.bits_0 in Hl. discriminate.
  - apply negb_false_iff, Z.eqb_eq. apply Z.bits_inj'. intros j Hj.
    rewrite Z.land_spec, Z.bits_0.
    destruct (Z.eq_dec j k) as [->|Hne].
    + rewrite Hb. reflexivity.
    + rewrite Z.pow2_bits_false by lia. apply andb_false_r.
Qed.

Lemma flags_are_top_bits (r : Z) :
  negb (Z.land r GIDHorizontalFlip =? 0) = Z.testbit r 31 /\
  negb (Z.land r GIDVerticalFlip =? 0) = Z.testbit r 30 /\
  negb (Z.land r GIDDiagonalFlip =? 0) = Z.testbit r 29.
Proof.
  change GIDHorizontalFlip with (2 ^ 31).
  change GIDVerticalFlip with (2 ^ 30).
  change GIDDiagonalFlip with (2 ^ 29).
  repeat split; apply land_pow2_flag; lia.
Qed.

(** ** Map.DecodeGID *)

Section DecodeGID_facts.
Variable m : Map.t.
Variable gid : GID.

(** The scan returns the tileset of the highest index below [n] that
    qualifies. *)
Lemma DecodeGID_loop_hit (n i : nat) (ts : Tileset.t) :
  (i < n <= length (Map.Tilesets m))%nat ->
  Map.Tilesets m !! i = Some ts ->
  Tileset.FirstGID ts <= umaskedGID gid ->
  (forall j ts', (i < j)%nat -> Map.Tilesets m !! j = Some ts' ->
                 umaskedGID gid < Tileset.FirstGID ts') ->
  DecodeGID_loop m gid n = Return (tile_at gid i ts) None.
Proof.
  intros Hn Hi Hle Hlater. induction n as [|k IH]; [lia|].
  simpl. destruct (decide (k = i)) as [->|Hki].
  - rewrite Hi. destruct (Z.leb_spec (Tileset.FirstGID ts) (umaskedGID gid));
      [reflexivity|lia].
  - destruct (lookup_lt_is_Some_2 (Map.Tilesets m) k) as [ts' Hk]; [lia|].
    rewrite Hk. specialize (Hlater k ts' ltac:(lia) Hk).
    destruct (Z.leb_spec (Tileset.FirstGID ts') (umaskedGID gid)); [lia|].
    apply IH. lia.
Qed.

Lemma DecodeGID_loop_miss (n : nat) :
  (n <= length (Map.Tilesets m))%nat ->
  (forall j ts', (j < n)%nat -> Map.Tilesets m !! j = Some ts' ->
                 umaskedGID gid < Tileset.FirstGID ts') ->
  DecodeGID_loop m gid n = Return NilTile (Some ErrInvalidGID).
Proof.
  intros Hn Hall. induction n as [|k IH]; [reflexivity|].
  simpl. destruct (lookup_lt_is_Some_2 (Map.Tilesets m) k) as [ts' Hk]; [lia|].
  rewrite Hk. specialize (Hall k ts' ltac:(lia) Hk) as Hlt.
  destruct (Z.leb_spec (Tileset.FirstGID ts') (umaskedGID gid)); [lia|].
  apply IH; [lia|]. intros j ts'' Hj. apply Hall. lia.
Qed.

(** What any run of the scan returns. *)
Lemma DecodeGID_loop_inv (n : nat) :
  (n <= length (Map.Tilesets m))%nat ->
  (exists i ts, (i < n)%nat /\ Map.Tilesets m !! i = Some ts /\
                Tileset.FirstGID ts <= umaskedGID gid /\
                (forall j ts', (i < j < n)%nat ->
                               Map.Tilesets m !! j = Some ts' ->
                               umaskedGID gid < Tileset.FirstGID ts') /\
                DecodeGID_loop m gid n = Return (tile_at gid i ts) None)
  \/ ((forall j ts', (j < n)%nat -> Map.Tilesets m !! j = Some ts' ->
                     umaskedGID gid < Tileset.FirstGID ts') /\
      DecodeGID_loop m gid n = Return NilTile (Some ErrInvalidGID)).
Proof.
  induction n as [|k IH]; intros Hn.
  - right. split; [intros; lia | reflexivity].
  - simpl.
    destruct (lookup_lt_is_Some_2 (Map.Tilesets m) k) as [ts Hk]; [lia|].
    rewrite Hk.
    destruct (Z.leb_spec (Tileset.FirstGID ts) (umaskedGID gid)) as [Hle|Hgt].
    + left. exists k, ts. repeat split; try done; try lia; intros; lia.
    + specialize (IH ltac:(lia)).
      destruct IH as [(i & ts' & Hi & Hl & Hf & Hlater & Hrun) | [Hall Hrun]].
      * left. exists i, ts'. repeat split; try done; try lia.
        intros j ts'' Hj Hlj. destruct (decide (j = k)) as [->|Hne].
        -- congruence.
        -- apply (Hlater j ts''); [lia | done].
      * right. split; [|done]. intros j ts' Hj Hlj.
        destruct (decide (j = k)) as [->|Hne]; [congruence|].
        apply (Hall j ts'); [lia | done].
Qed.
End DecodeGID_facts.

Lemma DecodeGID_zero (m : Map.t) : DecodeGID m 0 = Return NilTile None.
Proof. reflexivity. Qed.

Lemma DecodeGID_nonzero (m : Map.t) (r : GID) :
  r <> 0 -> DecodeGID m r = DecodeGID_loop m r (length (Map.Tilesets m)).
Proof.
  intros Hr. unfold DecodeGID.
  destruct (Z.eqb_spec r 0); [contradiction | reflexivity].
Qed.

Lemma local_index_exact (r first : Z) :
  is_u32 r -> 0 <= first <= low_bits 29 r ->
  u32 (umaskedGID r - first) = low_bits 29 r - first.
Proof.
  intros Hr Hf. rewrite umaskedGID_low_bits by done.
  pose proof (low_bits_range 29 r ltac:(lia)) as Hm.
  apply u32_small. unfold is_u32. lia.
Qed.

(** DecodeGID does not panic: the scan stays inside [m.Tilesets]. *)
Lemma DecodeGID_no_panic (m : Map.t) (r : GID) : DecodeGID m r <> Panic.
Proof.
  unfold DecodeGID. destruct (r =? 0); [discriminate|].
  destruct (DecodeGID_loop_inv m r (length (Map.Tilesets m)) ltac:(lia))
    as [(i & ts & _ & _ & _ & _ & ->) | [_ ->]]; discriminate.
Qed.

(** Tiles that come out of [DecodeGID] without an error are either the
    empty tile or point at a tileset. *)
Lemma DecodeGID_tile_ok (m : Map.t) (r : GID) (t : DecodedTile.t) :
  DecodeGID m r = Return t None -> decoded_tile_ok t.
Proof.
  unfold DecodeGID, decoded_tile_ok. destruct (r =? 0).
  - intros [= <-]. discriminate.
  - destruct (DecodeGID_loop_inv m r (length (Map.Tilesets m)) ltac:(lia))
      as [(i & ts & _ & _ & _ & _ & ->) | [_ ->]].
    + intros [= <-]. discriminate.
    + discriminate.
Qed.

(** C1 — GID Resolver contract.  RID 0 resolves to the empty tile without
    an error.  For a nonzero RID [r], with the masked identifier being [r]
    with its three flag bits cleared: the scan from the last tileset to
    the first returns the tileset of the highest index [i] whose
    [FirstGID] is at most the masked identifier, the local index is the
    masked identifier minus that [FirstGID], and the three flags are bits
    31, 30 and 29 of [r] itself; when every [FirstGID] exceeds the masked
    identifier the result is the empty tile with [ErrInvalidGID].  For the
    tilesets with first identifiers 1 and 5, a RID whose masked identifier
    is 4 resolves to tileset 0 with local index 3, and one whose masked
    identifier is 5 to tileset 1 with local index 0. *)
Theorem DecodeGID_contract :
  (forall m, DecodeGID m 0 = Return NilTile None) /\
  (forall m r i ts,
      is_u32 r -> r <> 0 -> is_u32 (Tileset.FirstGID ts) ->
      Map.Tilesets m !! i = Some ts ->
      Tileset.FirstGID ts <= low_bits 29 r ->
      (forall j ts', (i < j)%nat -> Map.Tilesets m !! j = Some ts' ->
                     low_bits 29 r < Tileset.FirstGID ts') ->
      DecodeGID m r =
        Return (DecodedTile.mk (low_bits 29 r - Tileset.FirstGID ts) (Some i)
                  (Z.testbit r 31) (Z.testbit r 30) (Z.testbit r 29) false)
               None) /\
  (forall m r,
      is_u32 r -> r <> 0 ->
      (forall ts, ts ∈ Map.Tilesets m -> low_bits 29 r < Tileset.FirstGID ts) ->
      DecodeGID m r = Return NilTile (Some ErrInvalidGID)) /\
  (forall r, is_u32 r -> low_bits 29 r = 4 ->
      DecodeGID map_1_5 r =
        Return (DecodedTile.mk 3 (Some 0%nat)
                  (Z.testbit r 31) (Z.testbit r 30) (Z.testbit r 29) false)
               None) /\
  (forall r, is_u32 r -> low_bits 29 r = 5 ->
      DecodeGID map_1_5 r =
        Return (DecodedTile.mk 0 (Some 1%nat)
                  (Z.testbit r 31) (Z.testbit r 30) (Z.testbit r 29) false)
               None).
Proof.
  assert (Hhit : forall m r i ts,
      is_u32 r -> r <> 0 -> is_u32 (Tileset.FirstGID ts) ->
      Map.Tilesets m !! i = Some ts ->
      Tileset.FirstGID ts <= low_bits 29 r ->
      (forall j ts', (i < j)%nat -> Map.Tilesets m !! j = Some ts' ->
                     low_bits 29 r < Tileset.FirstGID ts') ->
      DecodeGID m r =
        Return (DecodedTile.mk (low_bits 29 r - Tileset.FirstGID ts) (Some i)
                  (Z.testbit r 31) (Z.testbit r 30) (Z.testbit r 29) false)
               None).
  { intros m r i ts Hr Hnz Hts Hi Hle Hlater.
    rewrite DecodeGID_nonzero by done.
    pose proof (lookup_lt_Some _ _ _ Hi) as Hlen.
    rewrite (DecodeGID_loop_hit m r _ i ts); try done; try lia.
    - unfold tile_at. destruct (flags_are_top_bits r) as (-> & -> & ->).
      rewrite local_index_exact; [done | done |]. unfold is_u32 in Hts. lia.
    - rewrite umaskedGID_low_bits; done.
    - intros j ts' Hj Hl. rewrite umaskedGID_low_bits by done. eauto. }
  split; [exact DecodeGID_zero|]. split; [exact Hhit|]. split; [|split].
  - intros m r Hr Hnz Hall. rewrite DecodeGID_nonzero by done.
    apply DecodeGID_loop_miss; [lia|]. intros j ts' _ Hl.
    rewrite umaskedGID_low_bits by done. apply Hall.
    apply list_elem_of_lookup. eauto.
  - intros r Hr H4.
    assert (Hnz : r <> 0) by (intros ->; discriminate).
    rewrite (Hhit map_1_5 r 0%nat (Tileset.mk 1 "ground.tsx" "ground" 4));
      try done; simpl; rewrite ?H4; try reflexivity;
      try (unfold is_u32; lia).
    intros [|[|j]] ts' Hj Hl; [lia | | done].
    injection Hl as <-. simpl. lia.
  - intros r Hr H5.
    assert (Hnz : r <> 0) by (intros ->; discriminate).
    rewrite (Hhit map_1_5 r 1%nat (Tileset.mk 5 "trees.tsx" "trees" 8));
      try done; simpl; rewrite ?H5; try reflexivity;
      try (unfold is_u32; lia).
    intros [|[|j]] ts' Hj Hl; [lia | lia | done].
Qed.

Lemma DecodeGID_contract_witness :
  DecodeGID map_1_5 0x80000004 =
    Return (DecodedTile.mk 3 (Some 0%nat) true false false false) None.
Proof.
  apply (proj1 (proj2 DecodeGID_contract) map_1_5 0x80000004 0%nat
           (Tileset.mk 1 "ground.tsx" "ground" 4)).
  - unfold is_u32. lia.
  - discriminate.
  - unfold is_u32. simpl. lia.
  - reflexivity.
  - vm_compute. discriminate.
  - intros [|[|j]] ts' Hj Hl.
    + lia.
    + injection Hl as <-. vm_compute. reflexivity.
    + discriminate.
Defined.

(** The horizontal flip bit over the identifier 7, with a tileset whose
    first identifier is 0. *)
Example DecodeGID_horizontal_flip :
  DecodeGID (Map.mk 1 1 16 16 [Tileset.mk 0 "ground.tsx" "ground" 8] [])
            0x80000007
  = Return (DecodedTile.mk 7 (Some 0%nat) true false false false) None.
Proof. reflexivity. Qed.

(** C4, as the claim states it, fails: the RIDs [0x10000004] and [4] have
    the same low 28 bits, 4, yet the first is looked up as [0x10000004]
    (bit 28 is kept) and resolves to the second tileset with local index
    [0x10000004 - 5], while the second resolves to the first tileset with
    local index 3. *)
Lemma DecodeGID_bit_28_takes_part :
  low_bits 28 0x10000004 = low_bits 28 4 /\
  umaskedGID 0x10000004 <> low_bits 28 0x10000004 /\
  DecodeGID map_1_5 0x10000004 =
    Return (DecodedTile.mk 0x0fffffff (Some 1%nat) false false false false)
           None /\
  DecodeGID map_1_5 4 =
    Return (DecodedTile.mk 3 (Some 0%nat) false false false false) None.
Proof. repeat split. vm_compute. discriminate. Qed.

(** C4, amended — for every nonzero RID [r], the identifier [DecodeGID]
    looks up, and computes the local index from, is [r] with its three
    flag bits cleared, that is the low 29 bits of [r]: bit 28 of [r] is
    bit 28 of the lookup value.  A tile returned without error belongs to
    the last tileset whose [FirstGID] is at most that value and has it
    minus the [FirstGID] as local index; [ErrInvalidGID] is returned when
    every [FirstGID] exceeds it. *)
Theorem DecodeGID_looks_up_low_29_bits (m : Map.t) (r : GID) :
  is_u32 r -> r <> 0 ->
  Forall (fun ts => is_u32 (Tileset.FirstGID ts)) (Map.Tilesets m) ->
  umaskedGID r = low_bits 29 r /\
  Z.testbit (umaskedGID r) 28 = Z.testbit r 28 /\
  match DecodeGID m r with
  | Return t None =>
      exists i ts,
        Map.Tilesets m !! i = Some ts /\
        Tileset.FirstGID ts <= low_bits 29 r /\
        (forall j ts', (i < j)%nat -> Map.Tilesets m !! j = Some ts' ->
                       low_bits 29 r < Tileset.FirstGID ts') /\
        DecodedTile.Tileset t = Some i /\
        DecodedTile.ID t = low_bits 29 r - Tileset.FirstGID ts
  | Return t (Some e) =>
      e = ErrInvalidGID /\
      forall ts, ts ∈ Map.Tilesets m -> low_bits 29 r < Tileset.FirstGID ts
  | Panic => False
  end.
Proof.
  intros Hr Hnz Hwf. pose proof (umaskedGID_low_bits r Hr) as Hum.
  split; [exact Hum|]. split.
  { rewrite Hum. unfold low_bits. apply Z.mod_pow2_bits_low. lia. }
  rewrite DecodeGID_nonzero by done.
  destruct (DecodeGID_loop_inv m r (length (Map.Tilesets m)) ltac:(lia))
    as [(i & ts & Hi & Hl & Hle & Hlater & ->) | [Hall ->]].
  - exists i, ts. rewrite <- Hum. repeat split; try done.
    + intros j ts' Hj Hlj. apply (Hlater j ts'); [|done].
      pose proof (lookup_lt_Some _ _ _ Hlj). lia.
    + simpl. rewrite local_index_exact, Hum; [done | done |].
      rewrite Forall_forall in Hwf.
      assert (Hin : ts ∈ Map.Tilesets m) by (apply list_elem_of_lookup; eauto).
      specialize (Hwf ts Hin). unfold is_u32 in Hwf. lia.
  - split; [done|]. intros ts Hin. rewrite <- Hum.
    apply list_elem_of_lookup in Hin as [j Hj].
    apply (Hall j ts); [|done]. apply (lookup_lt_Some _ _ _ Hj).
Qed.

Lemma DecodeGID_looks_up_low_29_bits_witness :
  umaskedGID 0x10000004 = low_bits 29 0x10000004 /\
  Z.testbit (umaskedGID 0x10000004) 28 = Z.testbit 0x10000004 28 /\
  match DecodeGID map_1_5 0x10000004 with
  | Return t None =>
      exists i ts,
        Map.Tilesets map_1_5 !! i = Some ts /\
        Tileset.FirstGID ts <= low_bits 29 0x10000004 /\
        (forall j ts', (i < j)%nat -> Map.Tilesets map_1_5 !! j = Some ts' ->
                       low_bits 29 0x10000004 < Tileset.FirstGID ts') /\
        DecodedTile.Tileset t = Some i /\
        DecodedTile.ID t = low_bits 29 0x10000004 - Tileset.FirstGID ts
  | Return t (Some e) =>
      e = ErrInvalidGID /\
      forall ts, ts ∈ Map.Tilesets map_1_5 ->
                 low_bits 29 0x10000004 < Tileset.FirstGID ts
  | Panic => False
  end.
Proof.
  apply (DecodeGID_looks_up_low_29_bits map_1_5 0x10000004).
  - unfold is_u32. lia.
  - discriminate.
  - repeat constructor; simpl; lia.
Defined.

(** ** getTileset *)

Section getTileset_facts.
Implicit Types (tiles : list DecodedTile.t) (p : TilesetPtr).

Local Abbreviation nonempty_in tiles t :=
  (t ∈ tiles /\ DecodedTile.Nil t = false).

Lemma getTileset_loop_all_nil tiles :
  (forall t, t ∈ tiles -> DecodedTile.Nil t = true) ->
  getTileset_loop tiles None = (None, true, false).
Proof.
  induction tiles as [|t rest IH]; intros Hall; [reflexivity|].
  simpl. rewrite (Hall t) by left. simpl. apply IH.
  intros t' Hin. apply Hall. by right.
Qed.

Lemma getTileset_loop_same tiles (i : nat) :
  (forall t, nonempty_in tiles t -> DecodedTile.Tileset t = Some i) ->
  getTileset_loop tiles (Some i) = (Some i, false, false).
Proof.
  induction tiles as [|t rest IH]; intros Hall; [reflexivity|].
  assert (Hrest : forall t', nonempty_in rest t' ->
                             DecodedTile.Tileset t' = Some i).
  { intros t' [Hin Hn]. apply Hall. split; [by right | done]. }
  simpl. destruct (DecodedTile.Nil t) eqn:Hn; simpl; [by apply IH|].
  rewrite (Hall t) by (split; [left | done]).
  rewrite bool_decide_eq_false_2 by (intros Hne; by apply Hne).
  by apply IH.
Qed.

Lemma getTileset_loop_differs tiles (i : nat) :
  (exists t, nonempty_in tiles t /\ DecodedTile.Tileset t <> Some i) ->
  getTileset_loop tiles (Some i) = (Some i, false, true).
Proof.
  induction tiles as [|t rest IH]; intros (t' & [Hin Hn] & Hne).
  - by apply elem_of_nil in Hin.
  - simpl. apply elem_of_cons in Hin as [<-|Hin].
    + rewrite Hn. simpl. by rewrite bool_decide_eq_true_2 by congruence.
    + assert (Hgo : getTileset_loop rest (Some i) = (Some i, false, true)).
      { apply IH. exists t'. repeat split; done. }
      destruct (DecodedTile.Nil t); simpl; [done|].
      destruct (bool_decide _); done.
Qed.

Lemma getTileset_loop_uniform tiles p :
  Forall decoded_tile_ok tiles ->
  (exists t, nonempty_in tiles t) ->
  (forall t, nonempty_in tiles t -> DecodedTile.Tileset t = p) ->
  getTileset_loop tiles None = (p, false, false) /\ p <> None.
Proof.
  induction tiles as [|t rest IH]; intros Hok (t0 & Hin0 & Hn0) Hall.
  - by apply elem_of_nil in Hin0.
  - apply Forall_cons in Hok as [Hokt Hok].
    assert (Hrest : forall t', nonempty_in rest t' ->
                               DecodedTile.Tileset t' = p).
    { intros t' [Hin Hn]. apply Hall. split; [by right | done]. }
    simpl. destruct (DecodedTile.Nil t) eqn:Hn; simpl.
    + apply IH; try done. exists t0. split; [|done].
      apply elem_of_cons in Hin0 as [->|Hin0]; [congruence | done].
    + assert (Hp : DecodedTile.Tileset t = p)
        by (apply Hall; split; [left | done]).
      specialize (Hokt Hn). rewrite Hp in *.
      destruct p as [i|]; [|done].
      split; [|done]. by apply getTileset_loop_same.
Qed.

Lemma getTileset_loop_multi tiles :
  Forall decoded_tile_ok tiles ->
  (exists t1 t2, nonempty_in tiles t1 /\ nonempty_in tiles t2 /\
                 DecodedTile.Tileset t1 <> DecodedTile.Tileset t2) ->
  exists i, getTileset_loop tiles None = (Some i, false, true).
Proof.
  induction tiles as [|t rest IH];
    intros Hok (t1 & t2 & [Hin1 Hn1] & [Hin2 Hn2] & Hne).
  - by apply elem_of_nil in Hin1.
  - apply Forall_cons in Hok as [Hokt Hok].
    simpl. destruct (DecodedTile.Nil t) eqn:Hn; simpl.
    + apply IH; [done|]. exists t1, t2.
      apply elem_of_cons in Hin1 as [->|Hin1]; [congruence|].
      apply elem_of_cons in Hin2 as [->|Hin2]; [congruence|].
      repeat split; done.
    + specialize (Hokt Hn).
      destruct (DecodedTile.Tileset t) as [i|] eqn:Hp; [|done].
      exists i. apply getTileset_loop_differs.
      destruct (decide (DecodedTile.Tileset t1 = Some i)) as [H1|H1].
      * exists t2. split; [|congruence]. split; [|done].
        apply elem_of_cons in Hin2 as [->|Hin2]; [congruence | done].
      * exists t1. split; [|done]. split; [|done].
        apply elem_of_cons in Hin1 as [->|Hin1]; [congruence | done].
Qed.
End getTileset_facts.





(** ** Map.DecodedLayers *)

Section DecodedLayers_facts.
Variable L : Lib.
Variable m : Map.t.

Local Abbreviation resolves :=
  (fun (g : GID) (t : DecodedTile.t) => DecodeGID m g = Return t None).

Lemma DecodedLayers_tiles_ok (gids : list GID) (ts acc : list DecodedTile.t) :
  Forall2 resolves gids ts ->
  DecodedLayers_tiles m gids acc = Return (acc ++ ts) None.
Proof.
  intros H. revert acc. induction H as [|g t gids ts Hg _ IH]; intros acc.
  - simpl. by rewrite app_nil_r.
  - simpl. rewrite Hg, IH, <- app_assoc. reflexivity.
Qed.

Lemma DecodedLayers_tiles_fail (g1 g2 : list GID) (g : GID)
    (t : DecodedTile.t) (e : error) (acc : list DecodedTile.t) :
  Forall (fun g' => exists t', resolves g' t') g1 ->
  DecodeGID m g = Return t (Some e) ->
  DecodedLayers_tiles m (g1 ++ g :: g2) acc = Return [] (Some e).
Proof.
  intros H Hg. revert acc. induction H as [|g' g1 [t' Hg'] _ IH]; intros acc.
  - simpl. by rewrite Hg.
  - simpl. rewrite Hg'. apply IH.
Qed.

(** What a run of the inner loop returns. *)
Lemma DecodedLayers_tiles_inv (gids : list GID) (acc : list DecodedTile.t) :
  (exists ts, Forall2 resolves gids ts /\
              DecodedLayers_tiles m gids acc = Return (acc ++ ts) None)
  \/ (exists g1 g g2 t e,
         gids = g1 ++ g :: g2 /\
         Forall (fun g' => exists t', resolves g' t') g1 /\
         DecodeGID m g = Return t (Some e) /\
         DecodedLayers_tiles m gids acc = Return [] (Some e)).
Proof.
  revert acc. induction gids as [|g gids IH]; intros acc.
  - left. exists []. split; [constructor|]. simpl. by rewrite app_nil_r.
  - simpl. destruct (DecodeGID m g) as [t [e|]|] eqn:Hg.
    + right. exists [], g, gids, t, e. repeat split; done.
    + destruct (IH (acc ++ [t])) as [(ts & Hts & Hrun) |
                                     (g1 & g' & g2 & t' & e & -> & H1 & Hg' & Hrun)].
      * left. exists (t :: ts). split; [by constructor|].
        rewrite Hrun, <- app_assoc. reflexivity.
      * right. exists (g :: g1), g', g2, t', e. repeat split; try done.
        constructor; eauto.
    + by destruct (DecodeGID_no_panic m g).
Qed.

Lemma DecodedLayers_loop_ok (layers : list Layer.t)
    (ds out : list DecodedLayer.t) :
  Forall2 (layer_decodes L m) layers ds ->
  DecodedLayers_loop L m layers out = Return (out ++ ds) None.
Proof.
  intros H. revert out.
  induction H as [|l d layers ds (gids & Hdec & Htiles & Hts & Hem) _ IH];
    intros out.
  - simpl. by rewrite app_nil_r.
  - simpl. rewrite Hdec, (DecodedLayers_tiles_ok _ _ [] Htiles). simpl.
    rewrite IH, <- app_assoc. destruct d as [tiles p em].
    simpl in Hts, Hem. subst. reflexivity.
Qed.

Lemma DecodedLayers_loop_fail (pre post : list Layer.t) (l : Layer.t)
    (e : error) (out : list DecodedLayer.t) :
  Forall (fun l' => exists d, layer_decodes L m l' d) pre ->
  layer_fails L m l e ->
  DecodedLayers_loop L m (pre ++ l :: post) out = Return [] (Some e).
Proof.
  intros H Hl. revert out.
  induction H as [|l' pre (d & gids & Hdec & Htiles & _) _ IH]; intros out.
  - simpl. destruct Hl as [[v Hv] | (gids & g1 & g & g2 & t & Hdec & -> & H1 & Hg)].
    + by rewrite Hv.
    + by rewrite Hdec, (DecodedLayers_tiles_fail g1 g2 g t e).
  - simpl. rewrite Hdec, (DecodedLayers_tiles_ok _ _ [] Htiles). apply IH.
Qed.

(** What a run of the outer loop returns. *)
Lemma DecodedLayers_loop_inv (layers : list Layer.t)
    (out : list DecodedLayer.t) :
  (exists ds, Forall2 (layer_decodes L m) layers ds /\
              DecodedLayers_loop L m layers out = Return (out ++ ds) None)
  \/ (exists pre l post e,
         layers = pre ++ l :: post /\
         Forall (fun l' => exists d, layer_decodes L m l' d) pre /\
         layer_fails L m l e /\
         DecodedLayers_loop L m layers out = Return [] (Some e))
  \/ DecodedLayers_loop L m layers out = Panic.
Proof.
  revert out. induction layers as [|l layers IH]; intros out.
  - left. exists []. split; [constructor|]. simpl. by rewrite app_nil_r.
  - simpl. destruct (Layer_Decode L l) as [gids [e|]|] eqn:Hdec.
    + right. left. exists [], l, layers, e.
      repeat split; [constructor|]. left. eauto.
    + destruct (DecodedLayers_tiles_inv gids [])
        as [(ts & Hts & ->) | (g1 & g & g2 & t & e & -> & H1 & Hg & ->)].
      * simpl.
        destruct (IH (out ++ [DecodedLayer.mk ts None false]))
          as [(ds & Hds & Hrun) |
              [(pre & l' & post & e & -> & Hpre & Hl' & Hrun) | Hrun]].
        -- left. exists (DecodedLayer.mk ts None false :: ds).
           split; [|by rewrite Hrun, <- app_assoc].
           constructor; [|done]. exists gids. done.
        -- right. left. exists (l :: pre), l', post, e.
           repeat split; try done. constructor; [|done].
           exists (DecodedLayer.mk ts None false), gids. done.
        -- right. right. done.
      * right. left. exists [], l, layers, e.
        repeat split; [constructor|]. right.
        exists (g1 ++ g :: g2), g1, g, g2, t. done.
    + right. right. done.
Qed.
End DecodedLayers_facts.

(** C6 — Orchestrator atomicity.  [DecodedLayers] returns a sequence of
    decoded layers without an error exactly when every layer, in document
    order, decodes and every one of its RIDs resolves, and the sequence is
    then the complete one.  When the layers before [l] decode and resolve
    and [l] fails with [e] (in [Layer.Decode], or at its first RID that
    does not resolve), the result is [e] with no layers, whatever the
    layers after [l] are; and every error [DecodedLayers] returns is such
    a first failure and comes with no layers. *)
Theorem DecodedLayers_all_or_nothing (L : Lib) (m : Map.t) :
  (forall ds,
      DecodedLayers L m = Return ds None <->
      Forall2 (layer_decodes L m) (Map.Layers m) ds) /\
  (forall pre l post e,
      Map.Layers m = pre ++ l :: post ->
      Forall (fun l' => exists d, layer_decodes L m l' d) pre ->
      layer_fails L m l e ->
      DecodedLayers L m = Return [] (Some e)) /\
  (forall ds e,
      DecodedLayers L m = Return ds (Some e) ->
      ds = [] /\
      exists pre l post,
        Map.Layers m = pre ++ l :: post /\
        Forall (fun l' => exists d, layer_decodes L m l' d) pre /\
        layer_fails L m l e).
Proof.
  unfold DecodedLayers. split; [|split].
  - intros ds. split.
    + intros Hrun.
      destruct (DecodedLayers_loop_inv L m (Map.Layers m) [])
        as [(ds' & Hds & Hrun') | [(pre & l & post & e & _ & _ & _ & Hrun') | Hrun']];
        rewrite Hrun' in Hrun; try discriminate.
      injection Hrun as <-. done.
    + intros Hds. by rewrite (DecodedLayers_loop_ok L m _ ds []).
  - intros pre l post e -> Hpre Hl. by apply DecodedLayers_loop_fail.
  - intros ds e Hrun.
    destruct (DecodedLayers_loop_inv L m (Map.Layers m) [])
      as [(ds' & Hds & Hrun') | [(pre & l & post & e' & Hsplit & Hpre & Hl & Hrun') | Hrun']];
      rewrite Hrun' in Hrun; try discriminate.
    injection Hrun as <- <-. split; [done|]. exists pre, l, post. done.
Qed.

Lemma DecodedLayers_all_or_nothing_witness :
  DecodedLayers (example_lib map_csv_layer) map_csv_layer =
    Return [] (Some ErrUnsupportedCompression).
Proof.
  apply (proj1 (proj2 (DecodedLayers_all_or_nothing
                         (example_lib map_csv_layer) map_csv_layer))
           [layer_one_tile] layer_csv [layer_one_tile]).
  - reflexivity.
  - constructor; [|constructor].
    exists (DecodedLayer.mk [tile_ground_3] None false), [4].
    split; [vm_compute; reflexivity|]. split; [|done].
    constructor; [vm_compute; reflexivity | constructor].
  - left. exists []. vm_compute. reflexivity.
Defined.

(** The tiles of the layers [DecodedLayers] returns are tiles of
    [DecodeGID]: the non-empty ones point at a tileset. *)
Lemma DecodedLayers_tiles_point_at_tilesets (L : Lib) (m : Map.t)
    (ds : list DecodedLayer.t) :
  DecodedLayers L m = Return ds None ->
  Forall (fun d => Forall decoded_tile_ok (DecodedLayer.DecodedTiles d)) ds.
Proof.
  unfold DecodedLayers. intros Hrun.
  destruct (DecodedLayers_loop_inv L m (Map.Layers m) [])
    as [(ds' & Hds & Hrun') | [(pre & l & post & e & _ & _ & _ & Hrun') | Hrun']];
    rewrite Hrun' in Hrun; try discriminate.
  injection Hrun as <-. simpl.
  eapply Forall2_Forall_r; [exact Hds|].
  apply Forall_forall. intros l _ d (gids & _ & Htiles & _).
  eapply Forall2_Forall_r; [exact Htiles|].
  apply Forall_forall. intros g _ t Hg. by apply (DecodeGID_tile_ok m g).
Qed.

(** ** Read *)

Lemma Read_loop_keeps_layers (out : Map.t) (layers rest : list DecodedLayer.t) :
  Read_loop out layers rest = layers.
Proof. induction rest as [|l rest IH]; [reflexivity | exact IH]. Qed.

(** C5 — the per-layer classification is discarded.  Every decoded layer
    that [DecodedLayers] returns has a nil [Tileset] and [Empty] false,
    whatever its tiles are; the loop of [Read] that calls [getTileset]
    assigns to its local copy only and leaves the slice of decoded layers
    as it was; and a map returned by [Read] is the map the XML decoder
    produced, returned without an error. *)
Theorem classification_is_discarded (L : Lib) :
  (forall m ds err,
      DecodedLayers L m = Return ds err ->
      Forall (fun d => DecodedLayer.Tileset d = None /\
                       DecodedLayer.Empty d = false) ds) /\
  (forall out layers, Read_loop out layers layers = layers) /\
  (forall r out err,
      Read L r = Return (Some out) err ->
      err = None /\ xml_Decode L r = (out, None)).
Proof.
  split; [|split].
  - intros m ds err Hrun. unfold DecodedLayers in Hrun.
    destruct (DecodedLayers_loop_inv L m (Map.Layers m) [])
      as [(ds' & Hds & Hrun') | [(pre & l & post & e' & _ & _ & _ & Hrun') | Hrun']];
      rewrite Hrun' in Hrun; try discriminate.
    + injection Hrun as <- <-. simpl.
      eapply Forall2_Forall_r; [exact Hds|].
      apply Forall_forall. intros l _ d (gids & _ & _ & Hts & Hem). done.
    + injection Hrun as <- <-. constructor.
  - intros out layers. apply Read_loop_keeps_layers.
  - intros r out err. unfold Read.
    destruct (xml_Decode L r) as [out' [e|]]; [discriminate|].
    destruct (DecodedLayers L out') as [layers [e|]|]; try discriminate.
    intros [= <- <-]. done.
Qed.

Lemma classification_is_discarded_witness :
  Forall (fun d => DecodedLayer.Tileset d = None /\
                   DecodedLayer.Empty d = false)
         [DecodedLayer.mk [tile_ground_3] None false] /\
  xml_Decode (example_lib map_one_layer) [] = (map_one_layer, None).
Proof.
  split.
  - apply (proj1 (classification_is_discarded (example_lib map_one_layer))
             map_one_layer _ None).
    vm_compute. reflexivity.
  - apply (proj2 (proj2 (classification_is_discarded
                           (example_lib map_one_layer))) [] map_one_layer None).
    vm_compute. reflexivity.
Defined.

(** The local copy does receive the classification: for a layer of empty
    tiles the iteration ends with [Empty] set on its copy, while the layer
    in the slice keeps [Empty] false. *)
Example Read_iter_blank_layer :
  Read_iter map_1_5 layer_blank = DecodedLayer.mk [NilTile; NilTile] None true /\
  Read_loop map_1_5 [layer_blank] [layer_blank] = [layer_blank].
Proof. split; reflexivity. Qed.

(** ** Data.decodeBytes and Layer.Decode *)

Section Decode_facts.
Variable L : Lib.

Lemma decodeBytes_unsupported (d : Data.t) :
  Data.Compression d <> Gzip -> Data.Compression d <> Zlib ->
  decodeBytes L d = Return [] (Some ErrUnsupportedCompression).
Proof.
  intros Hg Hz. unfold decodeBytes.
  destruct (String.eqb_spec (Data.Compression d) Gzip); [contradiction|].
  destruct (String.eqb_spec (Data.Compression d) Zlib); [contradiction|].
  reflexivity.
Qed.

(** The declared encoding is never read. *)
Lemma decodeBytes_ignores_encoding (enc enc' comp : string) (b : list byte) :
  decodeBytes L (Data.mk enc comp b) = decodeBytes L (Data.mk enc' comp b).
Proof. reflexivity. Qed.

Lemma Layer_Decode_ignores_encoding (name : string) (w h : Z)
    (enc enc' comp : string) (b : list byte) :
  Layer_Decode L (Layer.mk name w h (Data.mk enc comp b)) =
  Layer_Decode L (Layer.mk name w h (Data.mk enc' comp b)).
Proof. reflexivity. Qed.

Lemma decodeBytes_no_panic (d : Data.t) : decodeBytes L d <> Panic.
Proof.
  unfold decodeBytes, ioutil_ReadAll.
  destruct (String.eqb _ Gzip).
  - destruct (gzip_NewReader L _) as [zr [e|]]; discriminate.
  - destruct (String.eqb _ Zlib); [|discriminate].
    destruct (zlib_NewReader L _) as [zr [e|]]; discriminate.
Qed.

End Decode_facts.

(** C7 — a layer whose compression tag is neither ["gzip"] nor ["zlib"]
    fails in [Layer.Decode] with [ErrUnsupportedCompression] and no RIDs;
    the empty tag and the tag ["uncompressed"] are such tags. *)
Theorem Layer_Decode_unsupported_compression (L : Lib) (l : Layer.t) :
  Data.Compression (Layer.Data l) <> "gzip" ->
  Data.Compression (Layer.Data l) <> "zlib" ->
  Layer_Decode L l = Return [] (Some ErrUnsupportedCompression).
Proof.
  intros Hg Hz. unfold Layer_Decode.
  rewrite decodeBytes_unsupported by assumption. reflexivity.
Qed.

Lemma Layer_Decode_unsupported_compression_witness :
  Layer_Decode (example_lib map_1_5)
    (Layer.mk "ground" 1 1 (Data.mk Base64 "uncompressed" [x04; x00; x00; x00]))
  = Return [] (Some ErrUnsupportedCompression) /\
  Layer_Decode (example_lib map_1_5)
    (Layer.mk "ground" 1 1 (Data.mk Base64 Uncompressed [x04; x00; x00; x00]))
  = Return [] (Some ErrUnsupportedCompression).
Proof.
  split; apply Layer_Decode_unsupported_compression; simpl; discriminate.
Defined.

(** Where [l.Width*l.Height*4] overflows, the test of [Layer.Decode] is
    made on the wrapped product.  With a width of [2^62], a height of 4
    and a payload that decompresses to no bytes the wrapped products are
    0: the test passes, [make] returns an empty slice, and the first
    iteration panics on [dataBytes[0]]. *)
Lemma Layer_Decode_overflow (L : Lib) (name : string) (d : Data.t) :
  decodeBytes L d = Return [] None ->
  Layer_Decode L (Layer.mk name (2 ^ 62) 4 d) = Panic.
Proof.
  intros Hd. unfold Layer_Decode. simpl Layer.Data. rewrite Hd.
  change (int_mul (int_mul (Layer.Width (Layer.mk name (2 ^ 62) 4 d))
                           (Layer.Height (Layer.mk name (2 ^ 62) 4 d))) 4)
    with 0.
  change (int_mul (Layer.Width (Layer.mk name (2 ^ 62) 4 d))
                  (Layer.Height (Layer.mk name (2 ^ 62) 4 d)))
    with 0.
  change (Layer.Height (Layer.mk name (2 ^ 62) 4 d)) with 4.
  change (Layer.Width (Layer.mk name (2 ^ 62) 4 d)) with (2 ^ 62).
  change (Z.to_nat 4) with 4%nat.
  change (negb (len [] =? 0)) with false. cbv iota.
  change (makeslice 0 4 0) with (Some (@nil GID)). cbv iota.
  unfold Decode_rows.
  destruct (Z.to_nat (2 ^ 62)) as [|n] eqn:Hn; [lia|]. reflexivity.
Qed.

(** C8, as the claim states it, fails where the product overflows: the
    layer of width [2^62] and height 4 whose payload decompresses to no
    bytes has a payload length, 0, that differs from width*height*4,
    [2^66], and [Layer.Decode] does not return
    [ErrInvalidDecodedDataLen]: it panics. *)
Lemma Layer_Decode_overflow_no_length_error :
  decodeBytes (example_lib map_1_5) (Layer.Data layer_overflow)
  = Return [] None /\
  len ([] : list byte)
  <> Layer.Width layer_overflow * Layer.Height layer_overflow * 4 /\
  Layer_Decode (example_lib map_1_5) layer_overflow = Panic /\
  Layer_Decode (example_lib map_1_5) layer_overflow
  <> Return [] (Some ErrInvalidDecodedDataLen).
Proof.
  assert (H : Layer_Decode (example_lib map_1_5) layer_overflow = Panic)
    by (apply Layer_Decode_overflow; reflexivity).
  rewrite H. repeat split; discriminate.
Qed.

(** C8, amended — when the payload decodes and decompresses to a number
    of bytes that differs from width*height*4, and that product is an
    [int], [Layer.Decode] fails with [ErrInvalidDecodedDataLen] and
    returns no RIDs; a payload of exactly width*height*4 - 1 bytes fails
    so for every width and height.  In general the test is made on the
    [int] expression [l.Width*l.Height*4] of the source. *)
Theorem Layer_Decode_invalid_length (L : Lib) (l : Layer.t)
    (dataBytes : list byte) :
  decodeBytes L (Layer.Data l) = Return dataBytes None ->
  (is_int (Layer.Width l * Layer.Height l * 4) ->
   len dataBytes <> Layer.Width l * Layer.Height l * 4 ->
   Layer_Decode L l = Return [] (Some ErrInvalidDecodedDataLen)) /\
  (len dataBytes = Layer.Width l * Layer.Height l * 4 - 1 ->
   Layer_Decode L l = Return [] (Some ErrInvalidDecodedDataLen)) /\
  (len dataBytes <> int_mul (int_mul (Layer.Width l) (Layer.Height l)) 4 ->
   Layer_Decode L l = Return [] (Some ErrInvalidDecodedDataLen)).
Proof.
  intros Hd.
  assert (Hcode :
    len dataBytes <> int_mul (int_mul (Layer.Width l) (Layer.Height l)) 4 ->
    Layer_Decode L l = Return [] (Some ErrInvalidDecodedDataLen)).
  { intros Hlen. unfold Layer_Decode. rewrite Hd.
    destruct (Z.eqb_spec (len dataBytes)
                (int_mul (int_mul (Layer.Width l) (Layer.Height l)) 4))
      as [Heq|Hne].
    - contradiction.
    - reflexivity. }
  split; [|split; [|exact Hcode]].
  - intros Hfit Hlen. apply Hcode.
    rewrite (int_mul_small (Layer.Width l) (Layer.Height l))
      by (unfold is_int, min_int, max_int in *; lia).
    rewrite int_mul_small; [exact Hlen | exact Hfit].
  - intros Hlen. apply Hcode. intros Heq.
    pose proof (int_mul_mod (int_mul (Layer.Width l) (Layer.Height l)) 4) as H1.
    pose proof (int_mul_mod (Layer.Width l) (Layer.Height l)) as H2.
    rewrite <- Heq in H1.
    rewrite <- Z.mul_mod_idemp_l, H2, Z.mul_mod_idemp_l in H1 by lia.
    rewrite Hlen in H1. revert H1. generalize (Layer.Width l * Layer.Height l * 4).
    intros P H1. change (2 ^ 64) with 18446744073709551616 in H1.
    Z.div_mod_to_equations. lia.
Qed.

Lemma Layer_Decode_invalid_length_witness :
  is_int (1 * 1 * 4) /\
  len [x04; x00; x00] <> 1 * 1 * 4 /\
  Layer_Decode (example_lib map_1_5)
    (Layer.mk "ground" 1 1 (Data.mk Base64 Gzip [x04; x00; x00]))
  = Return [] (Some ErrInvalidDecodedDataLen).
Proof.
  split; [vm_compute; split; discriminate|].
  split; [vm_compute; discriminate|].
  apply (proj1 (Layer_Decode_invalid_length (example_lib map_1_5)
           (Layer.mk "ground" 1 1 (Data.mk Base64 Gzip [x04; x00; x00]))
           [x04; x00; x00] ltac:(reflexivity))).
  - vm_compute. split; discriminate.
  - vm_compute. discriminate.
Defined.

(** C3 — the code at a layer declared as CSV.  [Layer.Decode] never reads
    the declared encoding: a layer decodes as the same layer declared
    base-64 does.  The CSV layer without a compression tag fails with
    [ErrUnsupportedCompression], not with [ErrUnsupportedEncoding]. *)
Theorem Layer_Decode_csv_layer (L : Lib) :
  (forall (name : string) (w h : Z) (enc comp : string) (b : list byte),
      Layer_Decode L (Layer.mk name w h (Data.mk enc comp b)) =
      Layer_Decode L (Layer.mk name w h (Data.mk Base64 comp b))) /\
  Data.Encoding (Layer.Data layer_csv) = CSV /\
  Layer_Decode L layer_csv = Return [] (Some ErrUnsupportedCompression) /\
  Layer_Decode L layer_csv <> Return [] (Some ErrUnsupportedEncoding).
Proof.
  assert (H : Layer_Decode L layer_csv
              = Return [] (Some ErrUnsupportedCompression)).
  { unfold Layer_Decode.
    rewrite decodeBytes_unsupported by (simpl; discriminate). reflexivity. }
  split.
  - intros name w h enc comp b. apply Layer_Decode_ignores_encoding.
  - rewrite H. repeat split. discriminate.
Qed.

(** ** Little-endian groups *)

Lemma byteZ_range (b : byte) : 0 <= byteZ b < 256.
Proof. unfold byteZ. pose proof (Byte.to_N_bounded b). lia. Qed.

Lemma byteZ_byte_of_Z (z : Z) : byteZ (byte_of_Z z) = z mod 256.
Proof.
  unfold byteZ, byte_of_Z.
  pose proof (Z.mod_pos_bound z 256 ltac:(lia)) as Hz.
  destruct (Byte.of_N (Z.to_N (z mod 256))) as [b|] eqn:Hb.
  - apply Byte.to_of_N in Hb. simpl. rewrite Hb. lia.
  - apply Byte.of_N_None_iff in Hb. lia.
Qed.

Lemma lor_shiftl_add (a b n : Z) :
  0 <= n -> 0 <= a < 2 ^ n -> Z.lor a (Z.shiftl b n) = a + b * 2 ^ n.
Proof.
  intros Hn Ha.
  assert (Hdisj : Z.land a (Z.shiftl b n) = 0).
  { apply Z.bits_inj'. intros k Hk. rewrite Z.land_spec, Z.bits_0.
    destruct (Z.ltb_spec k n).
    - rewrite Z.shiftl_spec_low by lia. apply andb_false_r.
    - rewrite (testbit_above a n k) by lia. reflexivity. }
  rewrite <- Z.lxor_lor, <- Z.add_nocarry_lxor by exact Hdisj.
  rewrite Z.shiftl_mul_pow2 by lia. reflexivity.
Qed.

Lemma le32_sum (b0 b1 b2 b3 : byte) :
  le32 b0 b1 b2 b3
  = byteZ b0 + byteZ b1 * 2 ^ 8 + byteZ b2 * 2 ^ 16 + byteZ b3 * 2 ^ 24.
Proof.
  pose proof (byteZ_range b0). pose proof (byteZ_range b1).
  pose proof (byteZ_range b2). pose proof (byteZ_range b3).
  unfold le32.
  rewrite (lor_shiftl_add (byteZ b0)) by lia.
  rewrite (lor_shiftl_add (byteZ b0 + _)) by lia.
  rewrite (lor_shiftl_add (byteZ b0 + _ + _)) by lia.
  reflexivity.
Qed.

(** The sum [Layer.Decode] computes in [uint32] is the little-endian
    value. *)
Lemma Decode_gid_le32 (b0 b1 b2 b3 : byte) :
  u32 (u32 (u32 (byteZ b0 + u32 (Z.shiftl (byteZ b1) 8))
            + u32 (Z.shiftl (byteZ b2) 16))
       + u32 (Z.shiftl (byteZ b3) 24))
  = le32 b0 b1 b2 b3.
Proof.
  pose proof (byteZ_range b0). pose proof (byteZ_range b1).
  pose proof (byteZ_range b2). pose proof (byteZ_range b3).
  rewrite le32_sum, !Z.shiftl_mul_pow2 by lia.
  rewrite (u32_small (byteZ b1 * _)) by (unfold is_u32; lia).
  rewrite (u32_small (byteZ b2 * _)) by (unfold is_u32; lia).
  rewrite (u32_small (byteZ b3 * _)) by (unfold is_u32; lia).
  rewrite (u32_small (byteZ b0 + _)) by (unfold is_u32; lia).
  rewrite (u32_small (byteZ b0 + _ + _)) by (unfold is_u32; lia).
  apply u32_small. unfold is_u32. lia.
Qed.

Lemma le32_range (b0 b1 b2 b3 : byte) : is_u32 (le32 b0 b1 b2 b3).
Proof.
  pose proof (byteZ_range b0). pose proof (byteZ_range b1).
  pose proof (byteZ_range b2). pose proof (byteZ_range b3).
  rewrite le32_sum. unfold is_u32. lia.
Qed.

(** Decoding the four little-endian bytes of a RID gives the RID back. *)
Lemma group_le_bytes (r : Z) : is_u32 r -> group (le_bytes r) 0 = Some r.
Proof.
  intros Hr. unfold is_u32 in Hr. unfold group, le_bytes. simpl. f_equal.
  rewrite le32_sum, !byteZ_byte_of_Z, !Z.shiftr_div_pow2 by lia.
  change (2 ^ 8) with 256. change (2 ^ 16) with 65536.
  change (2 ^ 24) with 16777216. change (2 ^ 32) with 4294967296 in Hr.
  Z.div_mod_to_equations. lia.
Qed.

(** ** The loops of Layer.Decode *)

Lemma index_in_range {A : Type} (s : list A) (i : Z) :
  0 <= i < len s -> exists a, index s i = Some a /\ s !! Z.to_nat i = Some a.
Proof.
  intros Hi. unfold index, len in *.
  destruct (Z.ltb_spec i 0); [lia|].
  destruct (lookup_lt_is_Some_2 s (Z.to_nat i)) as [a Ha]; [lia|]. eauto.
Qed.

Lemma assign_in_range {A : Type} (s : list A) (i : Z) (v : A) :
  0 <= i < len s -> assign s i v = Some (<[Z.to_nat i := v]> s).
Proof.
  intros Hi. unfold assign.
  destruct (Z.leb_spec 0 i); [|lia]. destruct (Z.ltb_spec i (len s)); [|lia].
  reflexivity.
Qed.

Lemma makeslice_in_range {A : Type} (zero : A) (size n : Z) :
  0 <= n -> n * size <= max_int ->
  makeslice zero size n = Some (replicate (Z.to_nat n) zero).
Proof.
  intros Hn Hs. unfold makeslice.
  destruct (Z.ltb_spec n 0); [lia|].
  destruct (Z.ltb_spec max_int (n * size)); [lia | reflexivity].
Qed.

Section Decode_loops.
Variable L : Lib.
Variable dataBytes : list byte.
Variable width : Z.
Hypothesis width_pos : 0 < width.
Hypothesis len_fits : len dataBytes <= max_int.

(** The group the iteration at [j = 4 * k] reads. *)
Lemma group_at (k : nat) :
  4 * Z.of_nat k + 4 <= len dataBytes ->
  exists b0 b1 b2 b3,
    index dataBytes (4 * Z.of_nat k) = Some b0 /\
    index dataBytes (int_add (4 * Z.of_nat k) 1) = Some b1 /\
    index dataBytes (int_add (4 * Z.of_nat k) 2) = Some b2 /\
    index dataBytes (int_add (4 * Z.of_nat k) 3) = Some b3 /\
    group dataBytes k = Some (le32 b0 b1 b2 b3).
Proof.
  intros Hk. unfold max_int in len_fits.
  rewrite !int_add_small by (unfold is_int, min_int, max_int; lia).
  destruct (index_in_range dataBytes (4 * Z.of_nat k)) as (b0 & H0 & L0); [lia|].
  destruct (index_in_range dataBytes (4 * Z.of_nat k + 1)) as (b1 & H1 & L1); [lia|].
  destruct (index_in_range dataBytes (4 * Z.of_nat k + 2)) as (b2 & H2 & L2); [lia|].
  destruct (index_in_range dataBytes (4 * Z.of_nat k + 3)) as (b3 & H3 & L3); [lia|].
  exists b0, b1, b2, b3. repeat split; try done.
  unfold group.
  replace (4 * k)%nat with (Z.to_nat (4 * Z.of_nat k)) by lia.
  replace (Z.to_nat (4 * Z.of_nat k) + 1)%nat
    with (Z.to_nat (4 * Z.of_nat k + 1)) by lia.
  replace (Z.to_nat (4 * Z.of_nat k) + 2)%nat
    with (Z.to_nat (4 * Z.of_nat k + 2)) by lia.
  replace (Z.to_nat (4 * Z.of_nat k) + 3)%nat
    with (Z.to_nat (4 * Z.of_nat k + 3)) by lia.
  rewrite L0, L1, L2, L3. reflexivity.
Qed.

(** One row: the inner loop started at column [x] of row [y], whose
    first cell is [row = y * width], writes the groups of the cells
    [row + x .. row + width - 1] and nothing else. *)
Lemma Decode_cols_run (y row : Z) (n : nat) :
  forall (x : Z) (gids : list GID),
    row = y * width -> 0 <= row -> 0 <= x -> x + Z.of_nat n = width ->
    4 * (row + width) <= len dataBytes ->
    row + width <= len gids ->
    exists gids',
      Decode_cols dataBytes width y n x (4 * (row + x)) gids
        = Some (4 * (row + width), gids') /\
      length gids' = length gids /\
      (forall k : nat, row + x <= Z.of_nat k < row + width ->
                       gids' !! k = group dataBytes k) /\
      (forall k : nat, ~ (row + x <= Z.of_nat k < row + width) ->
                       gids' !! k = gids !! k).
Proof.
  unfold max_int in len_fits.
  induction n as [|n IH]; intros x gids Hrow Hr Hx Hn Hlen Hg.
  - exists gids. simpl. replace x with width by lia.
    repeat split; try done; intros; lia.
  - simpl.
    destruct (group_at (Z.to_nat (row + x))) as (b0 & b1 & b2 & b3 & H0 & H1 & H2 & H3 & Hgrp);
      [lia|].
    rewrite Z2Nat.id in H0, H1, H2, H3 by lia.
    rewrite H0, H1, H2, H3. simpl. rewrite Decode_gid_le32.
    rewrite (int_mul_small y width)
      by (rewrite <- Hrow; unfold is_int, min_int, max_int; lia).
    rewrite <- Hrow.
    rewrite !int_add_small by (unfold is_int, min_int, max_int; lia).
    unfold len in Hg.
    rewrite assign_in_range by (unfold len; lia). simpl.
    replace (4 * (row + x) + 4) with (4 * (row + (x + 1))) by lia.
    destruct (IH (x + 1) (<[Z.to_nat (row + x) := le32 b0 b1 b2 b3]> gids))
      as (gids' & Hrun & Hlen' & Hin & Hout);
      try done; try lia.
    { unfold len. rewrite length_insert. lia. }
    exists gids'. rewrite length_insert in Hlen'.
    split; [exact Hrun|]. repeat split; try done.
    + intros k Hk. destruct (decide (Z.of_nat k = row + x)) as [Hkx|Hkx].
      * rewrite Hout by lia.
        replace k with (Z.to_nat (row + x)) by lia.
        rewrite list_lookup_insert_eq by lia. by rewrite Hgrp.
      * apply Hin. lia.
    + intros k Hk. rewrite Hout by lia.
      apply list_lookup_insert_ne. lia.
Qed.

(** All rows from [y] on. *)
Lemma Decode_rows_run (height : Z) (n : nat) :
  forall (y : Z) (gids : list GID),
    0 <= y -> y + Z.of_nat n = height ->
    4 * (height * width) <= len dataBytes ->
    height * width <= len gids ->
    exists gids',
      Decode_rows dataBytes width n y (4 * (y * width)) gids
        = Some (4 * (height * width), gids') /\
      length gids' = length gids /\
      (forall k : nat, y * width <= Z.of_nat k < height * width ->
                       gids' !! k = group dataBytes k) /\
      (forall k : nat, ~ (y * width <= Z.of_nat k < height * width) ->
                       gids' !! k = gids !! k).
Proof.
  induction n as [|n IH]; intros y gids Hy Hn Hlen Hg.
  - exists gids. simpl. replace y with height by lia.
    repeat split; try done; intros; lia.
  - simpl.
    assert (Hrow : y * width + width <= height * width) by nia.
    assert (Hrow0 : 0 <= y * width) by nia.
    destruct (Decode_cols_run y (y * width) (Z.to_nat width) 0 gids)
      as (gids1 & Hrun1 & Hlen1 & Hin1 & Hout1); try done; try lia.
    replace (4 * (y * width + 0)) with (4 * (y * width)) in Hrun1 by lia.
    rewrite Hrun1. simpl.
    unfold max_int in len_fits.
    rewrite int_add_small by (unfold is_int, min_int, max_int; nia).
    replace (4 * (y * width + width)) with (4 * ((y + 1) * width)) by lia.
    destruct (IH (y + 1) gids1) as (gids2 & Hrun2 & Hlen2 & Hin2 & Hout2);
      try done; try lia.
    { unfold len in *. lia. }
    exists gids2. rewrite Hrun2.
    repeat split; try done; try congruence.
    + intros k Hk.
      destruct (Z.lt_ge_cases (Z.of_nat k) ((y + 1) * width)) as [Hlt|Hge].
      * rewrite Hout2 by lia. apply Hin1. lia.
      * apply Hin2. lia.
    + intros k Hk. rewrite Hout2 by lia. apply Hout1. lia.
Qed.
End Decode_loops.

(** A loop that has no column or no row to visit leaves [gids] alone. *)
Lemma Decode_rows_idle (dataBytes : list byte) (width : Z) (n : nat) :
  forall (y j : Z) (gids : list GID),
    Z.to_nat width = 0%nat ->
    Decode_rows dataBytes width n y j gids = Some (j, gids).
Proof.
  induction n as [|n IH]; intros y j gids Hw; [reflexivity|].
  simpl. rewrite Hw. simpl. by apply IH.
Qed.

Section Decode_success.
Variable L : Lib.

Lemma Layer_Decode_groups (l : Layer.t) (dataBytes : list byte) :
  decodeBytes L (Layer.Data l) = Return dataBytes None ->
  len dataBytes <= max_int ->
  len dataBytes = Layer.Width l * Layer.Height l * 4 ->
  exists gids,
    Layer_Decode L l = Return gids None /\
    len gids = Layer.Width l * Layer.Height l /\
    (forall x y,
       0 <= x < Layer.Width l -> 0 <= y < Layer.Height l ->
       exists rid,
         group dataBytes (Z.to_nat (y * Layer.Width l + x)) = Some rid /\
         gids !! Z.to_nat (y * Layer.Width l + x) = Some rid) /\
    (0 <= Layer.Width l -> 0 <= Layer.Height l ->
     forall k : nat, (k < length gids)%nat -> gids !! k = group dataBytes k).
Proof.
  intros Hd Hfit Hlen. unfold Layer_Decode. rewrite Hd.
  set (W := Layer.Width l) in *. set (H := Layer.Height l) in *.
  assert (Hlen0 : 0 <= len dataBytes) by (unfold len; lia).
  assert (HP : 0 <= W * H <= max_int) by (unfold max_int in *; lia).
  rewrite (int_mul_small W H) by (unfold is_int, min_int, max_int in *; lia).
  rewrite (int_mul_small (W * H) 4)
    by (unfold is_int, min_int, max_int in *; lia).
  rewrite <- Hlen, Z.eqb_refl. simpl.
  rewrite makeslice_in_range by lia.
  set (gids0 := replicate (Z.to_nat (W * H)) 0).
  assert (Hg0 : len gids0 = W * H).
  { unfold len, gids0. rewrite length_replicate. lia. }
  destruct (decide (0 < W /\ 0 < H)) as [[HW HH]|Hidle].
  - assert (H1 : 0 + Z.of_nat (Z.to_nat H) = H) by lia.
    assert (H2 : 4 * (H * W) <= len dataBytes) by lia.
    assert (H3 : H * W <= len gids0) by lia.
    destruct (Decode_rows_run dataBytes W HW Hfit H (Z.to_nat H) 0 gids0
                ltac:(lia) H1 H2 H3)
      as (gids & Hrun & Hlen' & Hin & _).
    change (4 * (0 * W)) with 0 in Hrun. rewrite Hrun.
    exists gids. split; [done|]. split.
    { unfold len. rewrite Hlen'. exact Hg0. }
    split.
    + intros x y Hx Hy.
      assert (Hk : 0 <= y * W + x < H * W) by nia.
      destruct (group_at dataBytes Hfit (Z.to_nat (y * W + x)))
        as (b0 & b1 & b2 & b3 & _ & _ & _ & _ & Hgrp); [lia|].
      exists (le32 b0 b1 b2 b3). split; [done|].
      rewrite Hin by lia. done.
    + intros _ _ k Hk. apply Hin. rewrite Hlen' in Hk.
      assert (Hk' : Z.of_nat k < W * H)
        by (rewrite <- Hg0; unfold len; apply Nat2Z.inj_lt; exact Hk).
      lia.
  - assert (Hrun : Decode_rows dataBytes W (Z.to_nat H) 0 0 gids0
                   = Some (0, gids0)).
    { destruct (decide (0 < H)).
      - apply Decode_rows_idle. lia.
      - replace (Z.to_nat H) with 0%nat by lia. reflexivity. }
    rewrite Hrun. exists gids0. split; [done|]. split; [done|]. split.
    + intros x y Hx Hy. lia.
    + intros HW HH k Hk.
      assert (Hk' : Z.of_nat k < W * H)
        by (rewrite <- Hg0; unfold len; apply Nat2Z.inj_lt; exact Hk).
      nia.
Qed.
End Decode_success.

(** C2, as the claim states it, fails for a width and a height that are
    both negative: the layer of width -1 and height -1 whose payload
    decodes to the four little-endian bytes of 300 has exactly
    width × height × 4 = 4 bytes, and their group 0 is 300, yet
    [Layer.Decode] returns the one RID 0: its loops visit no row. *)
Lemma Layer_Decode_negative_dimensions :
  decodeBytes (example_lib map_1_5) (Layer.Data layer_negative)
  = Return (le_bytes 300) None /\
  len (le_bytes 300)
  = Layer.Width layer_negative * Layer.Height layer_negative * 4 /\
  group (le_bytes 300) 0 = Some 300 /\
  Layer_Decode (example_lib map_1_5) layer_negative = Return [0] None /\
  Layer_Decode (example_lib map_1_5) layer_negative <> Return [300] None.
Proof.
  assert (H : Layer_Decode (example_lib map_1_5) layer_negative
              = Return [0] None) by reflexivity.
  rewrite H. repeat split. discriminate.
Qed.

(** C2, amended — Bit-Packed Tile Decoder, success.  For a layer whose
    width and height are not negative: when the payload decodes and
    decompresses, without error, to exactly width × height × 4 bytes,
    [Layer.Decode] succeeds with exactly width × height RIDs; every RID of
    the output is the little-endian value [b0 | b1<<8 | b2<<16 | b3<<24]
    of the group of four consecutive bytes of its index, and the RID of
    row [y] and column [x] is at index [y*width + x].  A layer of one tile
    whose payload holds the four little-endian bytes of a RID decodes to
    that RID; 300 comes back as 300. *)
Theorem Layer_Decode_little_endian_groups (L : Lib) :
  (forall (l : Layer.t) (dataBytes : list byte),
      decodeBytes L (Layer.Data l) = Return dataBytes None ->
      len dataBytes <= max_int ->
      0 <= Layer.Width l -> 0 <= Layer.Height l ->
      len dataBytes = Layer.Width l * Layer.Height l * 4 ->
      exists gids,
        Layer_Decode L l = Return gids None /\
        len gids = Layer.Width l * Layer.Height l /\
        (forall k : nat,
            (k < length gids)%nat ->
            exists rid, group dataBytes k = Some rid /\ gids !! k = Some rid) /\
        (forall x y,
            0 <= x < Layer.Width l -> 0 <= y < Layer.Height l ->
            (Z.to_nat (y * Layer.Width l + x) < length gids)%nat /\
            exists rid,
              group dataBytes (Z.to_nat (y * Layer.Width l + x)) = Some rid /\
              gids !! Z.to_nat (y * Layer.Width l + x) = Some rid)) /\
  (forall (r : Z) (name : string) (d : Data.t),
      is_u32 r ->
      decodeBytes L d = Return (le_bytes r) None ->
      Layer_Decode L (Layer.mk name 1 1 d) = Return [r] None) /\
  (forall (name : string) (d : Data.t),
      decodeBytes L d = Return (le_bytes 300) None ->
      Layer_Decode L (Layer.mk name 1 1 d) = Return [300] None).
Proof.
  assert (Hone : forall (r : Z) (name : string) (d : Data.t),
      is_u32 r ->
      decodeBytes L d = Return (le_bytes r) None ->
      Layer_Decode L (Layer.mk name 1 1 d) = Return [r] None).
  { intros r name d Hr Hd.
    destruct (Layer_Decode_groups L (Layer.mk name 1 1 d) (le_bytes r))
      as (gids & -> & Hlen & Hat & _); try done.
    destruct (Hat 0 0) as (rid & Hgrp & Hg); simpl; try lia.
    simpl in Hgrp, Hg, Hlen. change (Z.to_nat 0) with 0%nat in *.
    rewrite group_le_bytes in Hgrp by done. injection Hgrp as <-.
    destruct gids as [|g [|g' gids]]; simpl in *; try discriminate.
    - by injection Hg as ->.
    - unfold len in Hlen. simpl in Hlen. lia. }
  split; [|split; [exact Hone|]].
  - intros l dataBytes Hd Hfit HW HH Hlen.
    destruct (Layer_Decode_groups L l dataBytes Hd Hfit Hlen)
      as (gids & Hrun & Hn & Hat & Hall).
    specialize (Hall HW HH).
    exists gids. split; [exact Hrun|]. split; [exact Hn|]. split.
    + intros k Hk. destruct (lookup_lt_is_Some_2 gids k Hk) as [rid Hrid].
      exists rid. split; [|exact Hrid]. rewrite <- (Hall k Hk). exact Hrid.
    + intros x y Hx Hy. destruct (Hat x y Hx Hy) as (rid & Hgrp & Hg).
      split; [|by exists rid]. by apply (lookup_lt_Some gids _ rid).
  - intros name d. apply Hone. unfold is_u32. lia.
Qed.

Lemma Layer_Decode_little_endian_groups_witness :
  le_bytes 300 = [x2c; x01; x00; x00] /\
  Layer_Decode (example_lib map_1_5)
    (Layer.mk "ground" 1 1 (Data.mk Base64 Zlib [x2c; x01; x00; x00]))
  = Return [300] None.
Proof.
  split; [reflexivity|].
  apply (proj2 (proj2 (Layer_Decode_little_endian_groups (example_lib map_1_5)))
           "ground" (Data.mk Base64 Zlib [x2c; x01; x00; x00])).
  reflexivity.
Defined.

(** The length [Layer.Decode] passes to [make] can be out of range while
    its length test passes: with a width of [-2^62], a height of 3 and a
    payload that decompresses to no bytes, [l.Width*l.Height*4] wraps to
    0 and [l.Width*l.Height] to [2^62], and [make] panics. *)
Example Layer_Decode_make_out_of_range (L : Lib) (name : string) (d : Data.t) :
  decodeBytes L d = Return [] None ->
  Layer_Decode L (Layer.mk name (- 2 ^ 62) 3 d) = Panic.
Proof.
  intros Hd. unfold Layer_Decode. simpl Layer.Data. rewrite Hd. reflexivity.
Qed.

(** ** Polygon.Decode *)

Lemma part_parses_or_fails (part : string) :
  (exists pt, part_parses part pt) \/ (exists e, part_fails part e).
Proof.
  unfold part_parses, part_fails.
  destruct (Split part ","%char) as [|a [|b [|c coords]]] eqn:Hs;
    try (right; exists ErrInvalidPointsField; left; split;
         [unfold len; simpl; lia | reflexivity]).
  destruct (Atoi a) as [x [e|]] eqn:Ha.
  - right. exists e. right. left. exists a, b, x. done.
  - destruct (Atoi b) as [y [e|]] eqn:Hb.
    + right. exists e. right. right. exists a, b, x, y. done.
    + left. exists (Point.mk x y), a, b. done.
Qed.

Lemma part_parses_fun (part : string) (pt pt' : Point.t) :
  part_parses part pt -> part_parses part pt' -> pt = pt'.
Proof.
  intros (a & b & Hs & Ha & Hb) (a' & b' & Hs' & Ha' & Hb').
  rewrite Hs in Hs'. injection Hs' as <- <-.
  rewrite Ha in Ha'. rewrite Hb in Hb'.
  destruct pt, pt'. simpl in *. congruence.
Qed.

Lemma part_parses_not_fails (part : string) (pt : Point.t) (e : error) :
  part_parses part pt -> part_fails part e -> False.
Proof.
  intros (a & b & Hs & Ha & Hb)
    [[Hlen _] | [(a' & b' & v & Hs' & Ha') | (a' & b' & x & v & Hs' & _ & Hb')]].
  - rewrite Hs in Hlen. by apply Hlen.
  - rewrite Hs in Hs'. injection Hs' as <- <-. congruence.
  - rewrite Hs in Hs'. injection Hs' as <- <-. congruence.
Qed.

Section Polygon_loop.
Implicit Types (parts : list string) (out pts : list Point.t).

Lemma Polygon_Decode_loop_step_ok part parts (i : nat) out pt :
  part_parses part pt -> (i < length out)%nat ->
  Polygon_Decode_loop (part :: parts) i out
  = Polygon_Decode_loop parts (S i) (<[i := pt]> out).
Proof.
  intros (a & b & Hs & Ha & Hb) Hi. simpl. rewrite Hs. simpl.
  rewrite Ha. unfold set_X, set_Y.
  destruct (lookup_lt_is_Some_2 out i Hi) as [p Hp]. rewrite Hp. simpl.
  rewrite Hb. rewrite list_lookup_insert_eq by done. simpl.
  rewrite list_insert_insert_eq. by destruct pt.
Qed.

Lemma Polygon_Decode_loop_step_fail part parts (i : nat) out e :
  part_fails part e -> (i < length out)%nat ->
  Polygon_Decode_loop (part :: parts) i out = Return [] (Some e).
Proof.
  intros Hf Hi. simpl. unfold set_X, set_Y.
  destruct (lookup_lt_is_Some_2 out i Hi) as [p Hp].
  destruct Hf as [[Hlen ->] | [(a & b & v & Hs & Ha)
                              | (a & b & x & v & Hs & Ha & Hb)]].
  - destruct (Z.eqb_spec (len (Split part ","%char)) 2); [lia | done].
  - rewrite Hs. simpl. rewrite Ha, Hp. done.
  - rewrite Hs. simpl. rewrite Ha, Hp. simpl. rewrite Hb.
    rewrite list_lookup_insert_eq by done. done.
Qed.

Lemma Polygon_Decode_loop_ok parts pts :
  Forall2 part_parses parts pts ->
  forall (i : nat) out,
    (i + length parts <= length out)%nat ->
    Polygon_Decode_loop parts i out
    = Return (take i out ++ pts ++ drop (i + length parts) out) None.
Proof.
  induction 1 as [|part pt parts pts Hp _ IH]; intros i out Hi.
  - simpl. by rewrite Nat.add_0_r, take_drop.
  - simpl in Hi.
    rewrite (Polygon_Decode_loop_step_ok part parts i out pt) by (done || lia).
    rewrite IH by (rewrite length_insert; lia).
    rewrite (take_S_r _ i pt) by (apply list_lookup_insert_eq; lia).
    rewrite take_insert_ge by lia. rewrite drop_insert_lt by lia.
    rewrite <- app_assoc. simpl.
    by replace (S (i + length parts)) with (i + S (length parts))%nat by lia.
Qed.

Lemma Polygon_Decode_loop_fail pre part post e :
  Forall (fun q => exists pt, part_parses q pt) pre ->
  part_fails part e ->
  forall (i : nat) out,
    (i + length (pre ++ part :: post) <= length out)%nat ->
    Polygon_Decode_loop (pre ++ part :: post) i out = Return [] (Some e).
Proof.
  intros Hpre Hf. induction Hpre as [|q pre [pt Hq] _ IH]; intros i out Hi.
  - simpl in Hi. apply Polygon_Decode_loop_step_fail; [done | lia].
  - simpl in Hi. change ((q :: pre) ++ part :: post)
      with (q :: (pre ++ part :: post)).
    rewrite (Polygon_Decode_loop_step_ok q _ i out pt) by (done || lia).
    apply IH. rewrite length_insert. lia.
Qed.

(** Every list of parts either parses as a whole or has a first part
    that fails. *)
Lemma parts_parse_or_fail parts :
  (exists pts, Forall2 part_parses parts pts) \/
  (exists pre part post e,
      parts = pre ++ part :: post /\
      Forall (fun q => exists pt, part_parses q pt) pre /\
      part_fails part e).
Proof.
  induction parts as [|part parts IH].
  - left. exists []. constructor.
  - destruct (part_parses_or_fails part) as [[pt Hp] | [e Hf]].
    + destruct IH as [[pts Hpts] | (pre & q & post & e & -> & Hpre & Hf)].
      * left. exists (pt :: pts). by constructor.
      * right. exists (part :: pre), q, post, e.
        repeat split; try done. constructor; eauto.
    + right. exists [], part, parts, e. repeat split; try done.
Qed.
End Polygon_loop.

Lemma Polygon_Decode_make (p : Polygon.t) :
  Polygon_Decode p
  = Polygon_Decode_loop (Split (Polygon.Points p) " "%char) 0
      (replicate (length (Split (Polygon.Points p) " "%char)) (Point.mk 0 0)).
Proof.
  unfold Polygon_Decode, make, len.
  destruct (Z.ltb_spec (Z.of_nat (length (Split (Polygon.Points p) " "%char))) 0);
    [lia|].
  by rewrite Nat2Z.id.
Qed.

Lemma Polygon_Decode_ok (p : Polygon.t) (pts : list Point.t) :
  Forall2 part_parses (Split (Polygon.Points p) " "%char) pts ->
  Polygon_Decode p = Return pts None.
Proof.
  intros H. rewrite Polygon_Decode_make.
  rewrite (Polygon_Decode_loop_ok _ pts H) by (rewrite length_replicate; lia).
  rewrite take_0, drop_ge by (rewrite length_replicate; lia).
  simpl. by rewrite app_nil_r.
Qed.

Lemma Polygon_Decode_fail (p : Polygon.t) (pre post : list string)
    (part : string) (e : error) :
  Split (Polygon.Points p) " "%char = pre ++ part :: post ->
  Forall (fun q => exists pt, part_parses q pt) pre ->
  part_fails part e ->
  Polygon_Decode p = Return [] (Some e).
Proof.
  intros Hs Hpre Hf. rewrite Polygon_Decode_make, Hs.
  apply Polygon_Decode_loop_fail; try done.
  rewrite length_replicate. lia.
Qed.

(** C10 — Polygon Point Decoder contract.  The points string is split on
    the space character.  [Polygon.Decode] succeeds exactly when every
    part splits on the comma into exactly two substrings that both parse
    as integers, and the points are then those of the parts, in input
    order.  When the parts before [part] parse and [part] fails, the
    result is the error of [part] and no points: [ErrInvalidPointsField]
    if it does not split into exactly two substrings, the parse error of
    the substring otherwise; and every error returned is such a first
    failure.  ["0,0 10,0 10,10"] decodes to (0,0), (10,0), (10,10), and
    ["0,0 10"] fails with [ErrInvalidPointsField]. *)
Theorem Polygon_Decode_contract :
  (forall p pts,
      Polygon_Decode p = Return pts None <->
      Forall2 part_parses (Split (Polygon.Points p) " "%char) pts) /\
  (forall p pre part post e,
      Split (Polygon.Points p) " "%char = pre ++ part :: post ->
      Forall (fun q => exists pt, part_parses q pt) pre ->
      part_fails part e ->
      Polygon_Decode p = Return [] (Some e)) /\
  (forall p pts e,
      Polygon_Decode p = Return pts (Some e) ->
      pts = [] /\
      exists pre part post,
        Split (Polygon.Points p) " "%char = pre ++ part :: post /\
        Forall (fun q => exists pt, part_parses q pt) pre /\
        part_fails part e) /\
  Polygon_Decode (Polygon.mk "0,0 10,0 10,10")
  = Return [Point.mk 0 0; Point.mk 10 0; Point.mk 10 10] None /\
  Polygon_Decode (Polygon.mk "0,0 10")
  = Return [] (Some ErrInvalidPointsField).
Proof.
  split; [|split; [|split; [|split]]].
  - intros p pts. split; [|apply Polygon_Decode_ok].
    intros Hrun.
    destruct (parts_parse_or_fail (Split (Polygon.Points p) " "%char))
      as [[pts' Hpts] | (pre & part & post & e & Hs & Hpre & Hf)].
    + rewrite (Polygon_Decode_ok p pts' Hpts) in Hrun. by injection Hrun as <-.
    + rewrite (Polygon_Decode_fail p pre post part e Hs Hpre Hf) in Hrun.
      discriminate.
  - intros p pre part post e. apply Polygon_Decode_fail.
  - intros p pts e Hrun.
    destruct (parts_parse_or_fail (Split (Polygon.Points p) " "%char))
      as [[pts' Hpts] | (pre & part & post & e' & Hs & Hpre & Hf)].
    + rewrite (Polygon_Decode_ok p pts' Hpts) in Hrun. discriminate.
    + rewrite (Polygon_Decode_fail p pre post part e' Hs Hpre Hf) in Hrun.
      injection Hrun as <- <-. split; [done|]. exists pre, part, post. done.
  - reflexivity.
  - reflexivity.
Qed.

Lemma Polygon_Decode_contract_witness :
  Polygon_Decode (Polygon.mk "0,0 10,x") =
    Return [] (Some (NumError "x" ErrSyntax)).
Proof.
  apply (proj1 (proj2 Polygon_Decode_contract) (Polygon.mk "0,0 10,x")
           ["0,0"%string] "10,x"%string []).
  - reflexivity.
  - constructor; [|constructor].
    exists (Point.mk 0 0), "0"%string, "0"%string. repeat split.
  - right. right. exists "10"%string, "x"%string, 10, 0. repeat split.
Defined.

(** The empty string is one empty part, which has no comma. *)
Example Polygon_Decode_empty_string :
  Polygon_Decode (Polygon.mk "") = Return [] (Some ErrInvalidPointsField).
Proof. reflexivity. Qed.

(** * Further properties *)

(** ** Map.DecodeGID *)

(** X1 — [DecodeGID] never panics, on any map and any RID: its scan stays
    inside [m.Tilesets].  It either returns a tile without an error, or
    the empty tile with [ErrInvalidGID]; it returns no other error. *)
Theorem DecodeGID_tile_or_invalid (m : Map.t) (gid : GID) :
  (exists t, DecodeGID m gid = Return t None) \/
  DecodeGID m gid = Return NilTile (Some ErrInvalidGID).
Proof.
  unfold DecodeGID. destruct (gid =? 0); [left; eauto|].
  destruct (DecodeGID_loop_inv m gid (length (Map.Tilesets m)) ltac:(lia))
    as [(i & ts & _ & _ & _ & _ & ->) | [_ ->]]; [left; eauto | by right].
Qed.

(** A successful run on a nonzero RID, spelled out. *)
Lemma DecodeGID_success_inv (m : Map.t) (gid : GID) (t : DecodedTile.t) :
  gid <> 0 -> DecodeGID m gid = Return t None ->
  exists i ts,
    Map.Tilesets m !! i = Some ts /\
    Tileset.FirstGID ts <= umaskedGID gid /\
    t = tile_at gid i ts.
Proof.
  intros Hnz. rewrite DecodeGID_nonzero by done.
  destruct (DecodeGID_loop_inv m gid (length (Map.Tilesets m)) ltac:(lia))
    as [(i & ts & _ & Hl & Hle & _ & ->) | [_ ->]]; [|discriminate].
  intros [= <-]. eauto.
Qed.

Lemma flag_weights_sum (r : Z) :
  is_u32 r ->
  r = low_bits 29 r + flag_weight (Z.testbit r 31) 31
      + flag_weight (Z.testbit r 30) 30 + flag_weight (Z.testbit r 29) 29.
Proof.
  intros Hr. unfold is_u32 in Hr. unfold low_bits, flag_weight.
  rewrite !Z.testbit_odd, !Z.shiftr_div_pow2 by lia.
  change (2 ^ 31) with (2 ^ 29 * 4). change (2 ^ 30) with (2 ^ 29 * 2).
  rewrite <- !Z.div_div by lia.
  pose proof (Z.div_mod r (2 ^ 29) ltac:(lia)) as Hdm.
  assert (Hq : 0 <= r / 2 ^ 29 < 8).
  { split; [apply Z.div_pos; lia|]. apply Z.div_lt_upper_bound; lia. }
  set (q := r / 2 ^ 29) in *.
  assert (Hc : q = 0 \/ q = 1 \/ q = 2 \/ q = 3 \/ q = 4 \/ q = 5 \/ q = 6
               \/ q = 7) by lia.
  destruct Hc as [Hc|[Hc|[Hc|[Hc|[Hc|[Hc|[Hc|Hc]]]]]]]; rewrite Hc in *;
    simpl; lia.
Qed.

(** X2 — a resolved tile determines its RID.  When [DecodeGID] resolves a
    nonzero RID to a tile of the tileset [ts], the RID is the first
    identifier of [ts] plus the local index plus the weights of the three
    flags the tile carries. *)
Theorem DecodeGID_recovers_RID (m : Map.t) (gid : GID) (t : DecodedTile.t)
    (i : nat) (ts : Tileset.t) :
  is_u32 gid -> gid <> 0 ->
  DecodeGID m gid = Return t None ->
  DecodedTile.Tileset t = Some i ->
  Map.Tilesets m !! i = Some ts ->
  is_u32 (Tileset.FirstGID ts) ->
  RID_of ts t = gid.
Proof.
  intros Hr Hnz Hrun Hi Hts Hwf.
  destruct (DecodeGID_success_inv m gid t Hnz Hrun) as (i' & ts' & Hl & Hle & ->).
  simpl in Hi. injection Hi as ->. rewrite Hts in Hl. injection Hl as <-.
  unfold RID_of, tile_at. simpl.
  destruct (flags_are_top_bits gid) as (-> & -> & ->).
  rewrite local_index_exact; [| done |].
  - pose proof (flag_weights_sum gid Hr) as Hsum. lia.
  - rewrite <- umaskedGID_low_bits by done. unfold is_u32 in Hwf. lia.
Qed.

Lemma DecodeGID_recovers_RID_witness :
  RID_of (Tileset.mk 5 "trees.tsx" "trees" 8)
         (DecodedTile.mk 2 (Some 1%nat) true false true false)
  = 0xA0000007.
Proof.
  apply (DecodeGID_recovers_RID map_1_5 0xA0000007
           (DecodedTile.mk 2 (Some 1%nat) true false true false) 1%nat
           (Tileset.mk 5 "trees.tsx" "trees" 8)).
  - unfold is_u32. simpl. lia.
  - discriminate.
  - reflexivity.
  - reflexivity.
  - reflexivity.
  - unfold is_u32. simpl. lia.
Defined.

(** X3 — a RID that carries flag bits only is not the empty tile.  It is
    nonzero, so it is looked up, as the identifier 0: when every tileset
    starts at 1 or above it fails with [ErrInvalidGID]. *)
Theorem DecodeGID_flags_only (m : Map.t) (gid : GID) :
  is_u32 gid -> gid <> 0 -> low_bits 29 gid = 0 ->
  Forall (fun ts => 1 <= Tileset.FirstGID ts) (Map.Tilesets m) ->
  DecodeGID m gid = Return NilTile (Some ErrInvalidGID).
Proof.
  intros Hr Hnz Hlow Hall. rewrite DecodeGID_nonzero by done.
  apply DecodeGID_loop_miss; [lia|]. intros j ts' _ Hl.
  rewrite umaskedGID_low_bits, Hlow by done.
  rewrite Forall_forall in Hall.
  assert (Hin : ts' ∈ Map.Tilesets m) by (apply list_elem_of_lookup; eauto).
  specialize (Hall ts' Hin). lia.
Qed.

Lemma DecodeGID_flags_only_witness :
  DecodeGID map_1_5 0x80000000 = Return NilTile (Some ErrInvalidGID).
Proof.
  apply DecodeGID_flags_only.
  - unfold is_u32. simpl. lia.
  - discriminate.
  - reflexivity.
  - repeat constructor; simpl; lia.
Defined.

(** X4 — over tilesets listed in ascending order of their first
    identifiers, [DecodeGID] finds the tileset whose range holds the
    masked identifier: when the first identifier of tileset [i] is at most
    the masked identifier and that of tileset [i + 1], if there is one,
    exceeds it, the tile belongs to tileset [i], with the masked
    identifier minus the first identifier of [i] as local index. *)
Theorem DecodeGID_ascending (m : Map.t) (gid : GID) (i : nat)
    (ts : Tileset.t) :
  ascending (Map.Tilesets m) ->
  is_u32 gid -> gid <> 0 ->
  Map.Tilesets m !! i = Some ts ->
  0 <= Tileset.FirstGID ts <= low_bits 29 gid ->
  (forall next, Map.Tilesets m !! S i = Some next ->
                low_bits 29 gid < Tileset.FirstGID next) ->
  exists t,
    DecodeGID m gid = Return t None /\
    DecodedTile.Tileset t = Some i /\
    DecodedTile.ID t = low_bits 29 gid - Tileset.FirstGID ts /\
    DecodedTile.Nil t = false.
Proof.
  intros Hasc Hr Hnz Hi Hle Hnext. rewrite DecodeGID_nonzero by done.
  pose proof (lookup_lt_Some _ _ _ Hi) as Hlen.
  rewrite (DecodeGID_loop_hit m gid _ i ts); try done; try lia.
  - eexists. split; [reflexivity|]. simpl.
    rewrite local_index_exact by done. done.
  - rewrite umaskedGID_low_bits by done. lia.
  - intros j ts' Hj Hl. rewrite umaskedGID_low_bits by done.
    destruct (lookup_lt_is_Some_2 (Map.Tilesets m) (S i)) as [next Hn].
    { pose proof (lookup_lt_Some _ _ _ Hl). lia. }
    specialize (Hnext next Hn).
    pose proof (Hasc (S i) j next ts' ltac:(lia) Hn Hl). lia.
Qed.

Lemma DecodeGID_ascending_witness :
  exists t,
    DecodeGID map_1_5 4 = Return t None /\
    DecodedTile.Tileset t = Some 0%nat /\
    DecodedTile.ID t = low_bits 29 4 - 1 /\
    DecodedTile.Nil t = false.
Proof.
  apply (DecodeGID_ascending map_1_5 4 0%nat
           (Tileset.mk 1 "ground.tsx" "ground" 4)).
  - intros [|[|i]] [|[|j]] a b Hij Ha Hb; try discriminate; try lia;
      injection Ha as <-; injection Hb as <-; simpl; lia.
  - unfold is_u32. simpl. lia.
  - discriminate.
  - reflexivity.
  - vm_compute. split; discriminate.
  - intros next [= <-]. vm_compute. reflexivity.
Defined.

Lemma DecodeGID_loop_same_firsts (m m' : Map.t) (gid : GID) (n : nat) :
  Tileset.FirstGID <$> Map.Tilesets m = Tileset.FirstGID <$> Map.Tilesets m' ->
  DecodeGID_loop m gid n = DecodeGID_loop m' gid n.
Proof.
  intros Heq. induction n as [|k IH]; [reflexivity|]. simpl.
  pose proof (f_equal (fun l => l !! k) Heq) as Hk. simpl in Hk.
  rewrite !list_lookup_fmap in Hk.
  destruct (Map.Tilesets m !! k) as [ts|], (Map.Tilesets m' !! k) as [ts'|];
    simpl in Hk; try discriminate; [|reflexivity].
  injection Hk as ->. rewrite IH. reflexivity.
Qed.

(** X5 — [DecodeGID] reads nothing of a tileset but its first identifier:
    two maps whose tilesets have the same first identifiers, in the same
    order, resolve every RID alike.  In particular the tile count of a
    tileset is not checked against the local index. *)
Theorem DecodeGID_reads_first_identifiers_only (m m' : Map.t) (gid : GID) :
  Tileset.FirstGID <$> Map.Tilesets m = Tileset.FirstGID <$> Map.Tilesets m' ->
  DecodeGID m gid = DecodeGID m' gid.
Proof.
  intros Heq. unfold DecodeGID. destruct (gid =? 0); [reflexivity|].
  pose proof (f_equal length Heq) as Hlen. rewrite !length_fmap in Hlen.
  rewrite Hlen. by apply DecodeGID_loop_same_firsts.
Qed.

Lemma DecodeGID_reads_first_identifiers_only_witness :
  DecodeGID map_1_5 300
  = DecodeGID (Map.mk 9 9 8 8 [Tileset.mk 1 "" "a" 0; Tileset.mk 5 "" "b" 0] [])
              300.
Proof.
  apply DecodeGID_reads_first_identifiers_only. reflexivity.
Defined.

(** X6 — the tiles [DecodeGID] returns without an error.  [IsNil] holds
    exactly for the RID 0, and the tile is then [NilTile]; every other
    tile points at an element of [m.Tilesets], and for a RID and first
    identifiers in the range of [uint32] its local index is below
    [2^29]. *)
Theorem DecodeGID_tile_invariants (m : Map.t) (gid : GID) (t : DecodedTile.t) :
  DecodeGID m gid = Return t None ->
  (IsNil t = true <-> gid = 0) /\
  (gid = 0 -> t = NilTile) /\
  (gid <> 0 ->
   exists i ts,
     DecodedTile.Tileset t = Some i /\ Map.Tilesets m !! i = Some ts /\
     (is_u32 gid -> 0 <= Tileset.FirstGID ts ->
      0 <= DecodedTile.ID t < 2 ^ 29)).
Proof.
  intros Hrun. destruct (Z.eq_dec gid 0) as [->|Hnz].
  - rewrite DecodeGID_zero in Hrun. injection Hrun as <-.
    repeat split; try done.
  - destruct (DecodeGID_success_inv m gid t Hnz Hrun) as (i & ts & Hl & Hle & ->).
    split; [split; [discriminate | done]|]. split; [done|].
    intros _. exists i, ts. split; [done|]. split; [done|].
    intros Hr Hf. simpl.
    rewrite umaskedGID_low_bits in Hle by done.
    rewrite local_index_exact by (done || lia).
    pose proof (low_bits_range 29 gid ltac:(lia)). lia.
Qed.

Lemma DecodeGID_tile_invariants_witness :
  (IsNil (DecodedTile.mk 2 (Some 1%nat) true false false false) = true
   <-> 0x80000007 = 0) /\
  exists i ts,
    DecodedTile.Tileset (DecodedTile.mk 2 (Some 1%nat) true false false false)
    = Some i /\
    Map.Tilesets map_1_5 !! i = Some ts /\
    0 <= DecodedTile.ID (DecodedTile.mk 2 (Some 1%nat) true false false false)
      < 2 ^ 29.
Proof.
  destruct (DecodeGID_tile_invariants map_1_5 0x80000007
              (DecodedTile.mk 2 (Some 1%nat) true false false false)
              ltac:(reflexivity)) as (Hnil & _ & Hres).
  split; [exact Hnil|].
  destruct (Hres ltac:(discriminate)) as (i & ts & Hi & Hts & Hid).
  exists i, ts. split; [exact Hi|]. split; [exact Hts|].
  apply Hid.
  - unfold is_u32. simpl. lia.
  - simpl in Hi. injection Hi as <-. simpl in Hts. injection Hts as <-.
    simpl. lia.
Defined.

(** ** getTileset *)

(** Every tile sequence is of one of three kinds. *)
Lemma tiles_three_kinds (tiles : list DecodedTile.t) :
  (forall t, t ∈ tiles -> DecodedTile.Nil t = true) \/
  (exists p,
      (exists t, t ∈ tiles /\ DecodedTile.Nil t = false) /\
      (forall t, t ∈ tiles /\ DecodedTile.Nil t = false ->
                 DecodedTile.Tileset t = p)) \/
  (exists t1 t2,
      (t1 ∈ tiles /\ DecodedTile.Nil t1 = false) /\
      (t2 ∈ tiles /\ DecodedTile.Nil t2 = false) /\
      DecodedTile.Tileset t1 <> DecodedTile.Tileset t2).
Proof.
  induction tiles as [|t rest IH].
  - left. intros t Hin. by apply elem_of_nil in Hin.
  - destruct (DecodedTile.Nil t) eqn:Hn.
    + destruct IH as [Hall | [(p & (t0 & Hin0 & Hn0) & Hsame)
                             | (t1 & t2 & [Hin1 Hn1] & [Hin2 Hn2] & Hne)]].
      * left. intros t' [->|Hin]%elem_of_cons; auto.
      * right. left. exists p. split.
        -- exists t0. split; [by right | done].
        -- intros t' [[->|Hin]%elem_of_cons Hn']; [congruence | auto].
      * right. right. exists t1, t2.
        repeat split; try done; by right.
    + destruct IH as [Hall | [(p & (t0 & Hin0 & Hn0) & Hsame)
                             | (t1 & t2 & [Hin1 Hn1] & [Hin2 Hn2] & Hne)]].
      * right. left. exists (DecodedTile.Tileset t). split.
        -- exists t. split; [left | done].
        -- intros t' [[->|Hin]%elem_of_cons Hn']; [done|].
           rewrite (Hall t' Hin) in Hn'. discriminate.
      * destruct (decide (DecodedTile.Tileset t = p)) as [<-|Hne].
        -- right. left. exists (DecodedTile.Tileset t). split.
           ++ exists t. split; [left | done].
           ++ intros t' [[->|Hin]%elem_of_cons Hn']; auto.
        -- right. right. exists t, t0. split; [split; [left | done]|].
           split; [split; [by right | done]|].
           rewrite (Hsame t0) by done. done.
      * right. right. exists t1, t2.
        repeat split; try done; by right.
Qed.

(** X7 — the classification does not depend on the order of the tiles.
    For tiles as [DecodeGID] produces them, [getTileset] reports the same
    empty and multi flags on every permutation of a layer's tiles, and,
    unless it reports multi, the same tileset. *)
Theorem getTileset_order_independent (m : Map.t) (l l' : DecodedLayer.t) :
  Forall decoded_tile_ok (DecodedLayer.DecodedTiles l) ->
  DecodedLayer.DecodedTiles l ≡ₚ DecodedLayer.DecodedTiles l' ->
  (getTileset m l).1.2 = (getTileset m l').1.2 /\
  (getTileset m l).2 = (getTileset m l').2 /\
  ((getTileset m l).2 = false ->
   (getTileset m l).1.1 = (getTileset m l').1.1).
Proof.
  intros Hok Hperm. unfold getTileset.
  assert (Hok' : Forall decoded_tile_ok (DecodedLayer.DecodedTiles l'))
    by (by rewrite <- Hperm).
  assert (Hin : forall t, t ∈ DecodedLayer.DecodedTiles l <->
                          t ∈ DecodedLayer.DecodedTiles l')
    by (intros t; by rewrite Hperm).
  destruct (tiles_three_kinds (DecodedLayer.DecodedTiles l))
    as [Hall | [(p & (t0 & Hin0 & Hn0) & Hsame)
               | (t1 & t2 & [Hin1 Hn1] & [Hin2 Hn2] & Hne)]].
  - rewrite !getTileset_loop_all_nil; try done.
    intros t Ht. apply Hall, Hin, Ht.
  - destruct (getTileset_loop_uniform (DecodedLayer.DecodedTiles l) p Hok)
      as [-> _]; [by exists t0 | done |].
    destruct (getTileset_loop_uniform (DecodedLayer.DecodedTiles l') p Hok')
      as [-> _]; [| | done].
    + exists t0. split; [by apply Hin | done].
    + intros t [Ht Hn]. apply Hsame. split; [by apply Hin | done].
  - destruct (getTileset_loop_multi (DecodedLayer.DecodedTiles l) Hok)
      as [i ->]; [by exists t1, t2|].
    destruct (getTileset_loop_multi (DecodedLayer.DecodedTiles l') Hok')
      as [i' ->]; [|done].
    exists t1, t2. repeat split; try done; by apply Hin.
Qed.

Lemma getTileset_order_independent_witness :
  (getTileset map_1_5 layer_mixed).1.2
  = (getTileset map_1_5
       (DecodedLayer.mk [tile_trees_0; tile_ground_3; NilTile] None false)).1.2
  /\
  (getTileset map_1_5 layer_mixed).2
  = (getTileset map_1_5
       (DecodedLayer.mk [tile_trees_0; tile_ground_3; NilTile] None false)).2
  /\
  ((getTileset map_1_5 layer_mixed).2 = false ->
   (getTileset map_1_5 layer_mixed).1.1
   = (getTileset map_1_5
        (DecodedLayer.mk [tile_trees_0; tile_ground_3; NilTile] None false)).1.1).
Proof.
  apply getTileset_order_independent.
  - repeat constructor; intros; discriminate.
  - simpl. apply Permutation_sym.
    apply (Permutation_cons_append [tile_ground_3; NilTile] tile_trees_0).
Defined.

Lemma getTileset_loop_stops (tiles more : list DecodedTile.t)
    (cur p : TilesetPtr) (e : bool) :
  getTileset_loop tiles cur = (p, e, true) ->
  getTileset_loop (tiles ++ more) cur = (p, e, true).
Proof.
  revert cur. induction tiles as [|t rest IH]; intros cur.
  - simpl. destruct cur; discriminate.
  - simpl. destruct (DecodedTile.Nil t); simpl; [apply IH|].
    destruct cur as [i|]; [|apply IH].
    destruct (bool_decide _); [done | apply IH].
Qed.

(** X8 — [getTileset] stops at the second tileset: once a layer's tiles
    make it report multi, no tile that follows changes its answer. *)
Theorem getTileset_short_circuits (m : Map.t)
    (tiles more : list DecodedTile.t) (ts ts' : TilesetPtr) (em em' : bool)
    (p : TilesetPtr) (e : bool) :
  getTileset m (DecodedLayer.mk tiles ts em) = (p, e, true) ->
  getTileset m (DecodedLayer.mk (tiles ++ more) ts' em') = (p, e, true).
Proof. unfold getTileset. simpl. apply getTileset_loop_stops. Qed.

Lemma getTileset_short_circuits_witness :
  getTileset map_1_5
    (DecodedLayer.mk ([tile_ground_3; NilTile; tile_trees_0] ++ [tile_ground_3])
                     None false)
  = (Some 0%nat, false, true).
Proof.
  apply (getTileset_short_circuits map_1_5 _ _ None None false false).
  reflexivity.
Defined.

(** ** Layer.Decode *)

(** X9 — [Layer.Decode] returns no RIDs with an error, and its errors are
    those of [decodeBytes] (the unsupported compression, or what the
    base-64 and decompression readers report; bytes read before a reader
    failed are dropped) and [ErrInvalidDecodedDataLen] for a payload that
    decoded to another length than [l.Width*l.Height*4]. *)
Theorem Layer_Decode_errors (L : Lib) (l : Layer.t) (v : list GID)
    (e : error) :
  Layer_Decode L l = Return v (Some e) ->
  v = [] /\
  ((exists b, decodeBytes L (Layer.Data l) = Return b (Some e)) \/
   (exists b, decodeBytes L (Layer.Data l) = Return b None /\
              len b <> int_mul (int_mul (Layer.Width l) (Layer.Height l)) 4 /\
              e = ErrInvalidDecodedDataLen)).
Proof.
  unfold Layer_Decode.
  destruct (decodeBytes L (Layer.Data l)) as [b [e'|]|] eqn:Hd; [| |done].
  - intros [= <- <-]. split; [done|]. left. eauto.
  - destruct (Z.eqb_spec (len b)
                (int_mul (int_mul (Layer.Width l) (Layer.Height l)) 4))
      as [Heq|Hne]; simpl.
    + destruct (makeslice 0 4 _) as [gids|]; [|done].
      destruct (Decode_rows _ _ _ _ _ _) as [[j gids']|]; discriminate.
    + intros [= <- <-]. split; [done|]. right. exists b. done.
Qed.

Lemma Layer_Decode_errors_witness :
  ([] : list GID) = [] /\
  ((exists b, decodeBytes (example_lib map_1_5) (Layer.Data layer_csv)
              = Return b (Some ErrUnsupportedCompression)) \/
   (exists b, decodeBytes (example_lib map_1_5) (Layer.Data layer_csv)
              = Return b None /\
              len b <> int_mul (int_mul (Layer.Width layer_csv)
                                        (Layer.Height layer_csv)) 4 /\
              ErrUnsupportedCompression = ErrInvalidDecodedDataLen)).
Proof.
  apply (Layer_Decode_errors (example_lib map_1_5) layer_csv).
  reflexivity.
Defined.

(** X10 — without overflow [Layer.Decode] does not panic: when
    [width*height*4] is an [int], every payload that [decodeBytes]
    delivers is either decoded or refused with an error. *)
Theorem Layer_Decode_no_panic (L : Lib) (l : Layer.t) (b : list byte)
    (err : option error) :
  is_int (Layer.Width l * Layer.Height l * 4) ->
  decodeBytes L (Layer.Data l) = Return b err ->
  len b <= max_int ->
  Layer_Decode L l <> Panic.
Proof.
  intros Hfit Hd Hlen. destruct err as [e|].
  - unfold Layer_Decode. rewrite Hd. discriminate.
  - destruct (Z.eq_dec (len b) (Layer.Width l * Layer.Height l * 4))
      as [Heq|Hne].
    + destruct (Layer_Decode_groups L l b Hd Hlen Heq) as (gids & -> & _).
      discriminate.
    + unfold Layer_Decode. rewrite Hd.
      rewrite (int_mul_small (Layer.Width l) (Layer.Height l))
        by (unfold is_int, min_int, max_int in *; lia).
      rewrite int_mul_small by exact Hfit.
      destruct (Z.eqb_spec (len b) (Layer.Width l * Layer.Height l * 4));
        [contradiction | discriminate].
Qed.

Lemma Layer_Decode_no_panic_witness :
  Layer_Decode (example_lib map_1_5) layer_one_tile <> Panic.
Proof.
  apply (Layer_Decode_no_panic (example_lib map_1_5) layer_one_tile
           [x04; x00; x00; x00] None).
  - vm_compute. split; discriminate.
  - reflexivity.
  - vm_compute. discriminate.
Defined.

Lemma group_encode_RIDs (rids : list GID) :
  Forall is_u32 rids ->
  forall k : nat, (k < length rids)%nat ->
                  group (encode_RIDs rids) k = rids !! k.
Proof.
  induction 1 as [|r rids Hr _ IH]; intros k Hk; [simpl in Hk; lia|].
  destruct k as [|k].
  - pose proof (group_le_bytes r Hr) as Hg. unfold group in *. simpl in *.
    exact Hg.
  - simpl in Hk. specialize (IH k ltac:(lia)).
    unfold group in *. 
    replace (4 * S k)%nat with (S (S (S (S (4 * k))))) by lia.
    simpl. exact IH.
Qed.

Lemma length_encode_RIDs (rids : list GID) :
  len (encode_RIDs rids) = 4 * len rids.
Proof.
  unfold len. induction rids as [|r rids IH]; [reflexivity|].
  unfold encode_RIDs in *. simpl. lia.
Qed.

(** X11 — encoding and decoding a layer.  For a width and a height that
    are not negative and width × height RIDs in the range of [uint32],
    when the payload decodes and decompresses to the four little-endian
    bytes of each RID in turn, [Layer.Decode] returns exactly those
    RIDs. *)
Theorem Layer_Decode_encode_RIDs (L : Lib) (l : Layer.t) (rids : list GID) :
  Forall is_u32 rids ->
  0 <= Layer.Width l -> 0 <= Layer.Height l ->
  len rids = Layer.Width l * Layer.Height l ->
  4 * len rids <= max_int ->
  decodeBytes L (Layer.Data l) = Return (encode_RIDs rids) None ->
  Layer_Decode L l = Return rids None.
Proof.
  intros Hu HW HH Hlen Hfit Hd.
  destruct (Layer_Decode_groups L l (encode_RIDs rids) Hd)
    as (gids & -> & Hl & _ & Hall).
  { rewrite length_encode_RIDs. lia. }
  { rewrite length_encode_RIDs. lia. }
  f_equal. specialize (Hall HW HH).
  assert (Hsame : length gids = length rids).
  { apply Nat2Z.inj. unfold len in *. lia. }
  apply list_eq_same_length with (length rids); [done | done |].
  intros k g r Hk Hg Hr.
  rewrite Hall, group_encode_RIDs in Hg by (done || lia).
  assert (E : Some g = Some r) by exact (eq_trans (eq_sym Hg) Hr).
  by injection E.
Qed.

Lemma Layer_Decode_encode_RIDs_witness :
  Layer_Decode (example_lib map_1_5)
    (Layer.mk "ground" 2 1
       (Data.mk Base64 Zlib (encode_RIDs [300; 0x80000005])))
  = Return [300; 0x80000005] None.
Proof.
  apply Layer_Decode_encode_RIDs.
  - repeat constructor; unfold is_u32; simpl; lia.
  - simpl. lia.
  - simpl. lia.
  - reflexivity.
  - vm_compute. discriminate.
  - reflexivity.
Defined.

Lemma u32_is_u32 (x : Z) : is_u32 (u32 x).
Proof. unfold is_u32, u32. apply Z.mod_pos_bound. lia. Qed.

Lemma Decode_cols_keeps_u32 (dataBytes : list byte) (width y : Z) (n : nat) :
  forall (x j j' : Z) (gids gids' : list GID),
    Decode_cols dataBytes width y n x j gids = Some (j', gids') ->
    Forall is_u32 gids -> Forall is_u32 gids'.
Proof.
  induction n as [|n IH]; intros x j j' gids gids' Hrun Hu.
  - simpl in Hrun. by injection Hrun as _ <-.
  - simpl in Hrun.
    destruct (index dataBytes j) as [b0|]; [simpl in Hrun | done].
    destruct (index dataBytes (int_add j 1)) as [b1|]; [simpl in Hrun | done].
    destruct (index dataBytes (int_add j 2)) as [b2|]; [simpl in Hrun | done].
    destruct (index dataBytes (int_add j 3)) as [b3|]; [simpl in Hrun | done].
    destruct (assign gids _ _) as [gids1|] eqn:Ha; [simpl in Hrun | done].
    apply (IH _ _ _ _ _ Hrun).
    unfold assign in Ha. destruct (_ && _); [|done]. injection Ha as <-.
    apply Forall_insert; [done | apply u32_is_u32].
Qed.

Lemma Decode_rows_keeps_u32 (dataBytes : list byte) (width : Z) (n : nat) :
  forall (y j j' : Z) (gids gids' : list GID),
    Decode_rows dataBytes width n y j gids = Some (j', gids') ->
    Forall is_u32 gids -> Forall is_u32 gids'.
Proof.
  induction n as [|n IH]; intros y j j' gids gids' Hrun Hu.
  - simpl in Hrun. by injection Hrun as _ <-.
  - simpl in Hrun.
    destruct (Decode_cols dataBytes width y (Z.to_nat width) 0 j gids)
      as [[j1 gids1]|] eqn:Hc; [simpl in Hrun | done].
    apply (IH _ _ _ _ _ Hrun).
    by apply (Decode_cols_keeps_u32 _ _ _ _ _ _ _ _ _ Hc).
Qed.

(** X12 — every RID [Layer.Decode] returns is in the range of [uint32],
    whatever the layer and whatever the readers deliver. *)
Theorem Layer_Decode_RIDs_are_uint32 (L : Lib) (l : Layer.t)
    (gids : list GID) (err : option error) :
  Layer_Decode L l = Return gids err -> Forall is_u32 gids.
Proof.
  unfold Layer_Decode.
  destruct (decodeBytes L (Layer.Data l)) as [b [e|]|]; [| |done].
  - intros [= <- <-]. constructor.
  - destruct (negb _); [intros [= <- <-]; constructor|].
    unfold makeslice. destruct (_ || _); [done|].
    destruct (Decode_rows _ _ _ _ _ _) as [[j gids']|] eqn:Hr; [|done].
    intros [= <- <-]. apply (Decode_rows_keeps_u32 _ _ _ _ _ _ _ _ Hr).
    apply Forall_replicate. unfold is_u32. lia.
Qed.

Lemma Layer_Decode_RIDs_are_uint32_witness : Forall is_u32 [4].
Proof.
  apply (Layer_Decode_RIDs_are_uint32 (example_lib map_1_5) layer_one_tile
           [4] None).
  reflexivity.
Defined.

(** X13 — a width or a height that is not positive.  When the payload
    decodes and decompresses to exactly width × height × 4 bytes and the
    width or the height is zero or negative, [Layer.Decode] does not read
    the payload: it succeeds with width × height RIDs that are all 0.
    That covers the layer without tiles, and the layer whose width and
    height are both negative. *)
Theorem Layer_Decode_not_positive (L : Lib) (l : Layer.t) (b : list byte) :
  Layer.Width l <= 0 \/ Layer.Height l <= 0 ->
  decodeBytes L (Layer.Data l) = Return b None ->
  len b <= max_int ->
  len b = Layer.Width l * Layer.Height l * 4 ->
  Layer_Decode L l
  = Return (replicate (Z.to_nat (Layer.Width l * Layer.Height l)) 0) None.
Proof.
  intros Hneg Hd Hfit Hlen. unfold Layer_Decode. rewrite Hd.
  set (W := Layer.Width l) in *. set (H := Layer.Height l) in *.
  assert (Hlen0 : 0 <= len b) by (unfold len; lia).
  rewrite (int_mul_small W H) by (unfold is_int, min_int, max_int in *; lia).
  rewrite (int_mul_small (W * H) 4)
    by (unfold is_int, min_int, max_int in *; lia).
  rewrite <- Hlen, Z.eqb_refl. simpl.
  rewrite makeslice_in_range by (unfold max_int in *; lia).
  assert (Hrun : Decode_rows b W (Z.to_nat H) 0 0
                   (replicate (Z.to_nat (W * H)) 0)
                 = Some (0, replicate (Z.to_nat (W * H)) 0)).
  { destruct (decide (0 < H)).
    - apply Decode_rows_idle. lia.
    - replace (Z.to_nat H) with 0%nat by lia. reflexivity. }
  by rewrite Hrun.
Qed.

Lemma Layer_Decode_not_positive_witness :
  Layer_Decode (example_lib map_1_5)
    (Layer.mk "ground" (-1) (-1) (Data.mk Base64 Gzip [x2c; x01; x00; x00]))
  = Return [0] None.
Proof.
  apply (Layer_Decode_not_positive (example_lib map_1_5)
           (Layer.mk "ground" (-1) (-1)
              (Data.mk Base64 Gzip [x2c; x01; x00; x00]))
           [x2c; x01; x00; x00]).
  - left. simpl. lia.
  - reflexivity.
  - vm_compute. discriminate.
  - reflexivity.
Defined.

(** ** Map.DecodedLayers *)

Lemma Layer_Decode_success_length (L : Lib) (l : Layer.t) (b : list byte)
    (gids : list GID) :
  is_int (Layer.Width l * Layer.Height l * 4) ->
  decodeBytes L (Layer.Data l) = Return b None ->
  Layer_Decode L l = Return gids None ->
  len b = Layer.Width l * Layer.Height l * 4.
Proof.
  intros Hfit Hd. unfold Layer_Decode. rewrite Hd.
  rewrite (int_mul_small (Layer.Width l) (Layer.Height l))
    by (unfold is_int, min_int, max_int in *; lia).
  rewrite int_mul_small by exact Hfit.
  destruct (Z.eqb_spec (len b) (Layer.Width l * Layer.Height l * 4));
    [done | discriminate].
Qed.

Lemma DecodedLayers_success_inv (L : Lib) (m : Map.t)
    (ds : list DecodedLayer.t) :
  DecodedLayers L m = Return ds None ->
  Forall2 (layer_decodes L m) (Map.Layers m) ds.
Proof.
  unfold DecodedLayers. intros Hrun.
  destruct (DecodedLayers_loop_inv L m (Map.Layers m) [])
    as [(ds' & Hds & Hrun') | [(pre & l & post & e & _ & _ & _ & Hrun') | Hrun']];
    rewrite Hrun' in Hrun; try discriminate.
  by injection Hrun as <-.
Qed.

(** X14 — from the payload to the tile.  When [DecodedLayers] succeeds it
    returns one decoded layer per layer, in order; and for a layer whose
    [width*height*4] is an [int], the tile at index [y*width + x] of its
    decoded layer is what [DecodeGID] resolves the little-endian value of
    byte group [y*width + x] of the decompressed payload to, for every
    row [y] and column [x] of the layer. *)
Theorem DecodedLayers_tile_at (L : Lib) (m : Map.t)
    (ds : list DecodedLayer.t) :
  DecodedLayers L m = Return ds None ->
  length ds = length (Map.Layers m) /\
  forall (i : nat) (l : Layer.t) (d : DecodedLayer.t) (b : list byte) (x y : Z),
    Map.Layers m !! i = Some l -> ds !! i = Some d ->
    decodeBytes L (Layer.Data l) = Return b None ->
    len b <= max_int ->
    is_int (Layer.Width l * Layer.Height l * 4) ->
    0 <= x < Layer.Width l -> 0 <= y < Layer.Height l ->
    exists rid t,
      group b (Z.to_nat (y * Layer.Width l + x)) = Some rid /\
      DecodeGID m rid = Return t None /\
      DecodedLayer.DecodedTiles d !! Z.to_nat (y * Layer.Width l + x) = Some t.
Proof.
  intros Hrun. pose proof (DecodedLayers_success_inv L m ds Hrun) as Hall.
  split; [symmetry; by eapply Forall2_length|].
  intros i l d b x y Hl Hd Hb Hlen Hfit Hx Hy.
  destruct (Forall2_lookup_lr _ _ _ _ _ _ Hall Hl Hd)
    as (gids & Hdec & Htiles & _).
  pose proof (Layer_Decode_success_length L l b gids Hfit Hb Hdec) as Heq.
  destruct (Layer_Decode_groups L l b Hb Hlen Heq) as (gids' & Hdec' & _ & Hat & _).
  rewrite Hdec in Hdec'. injection Hdec' as <-.
  destruct (Hat x y Hx Hy) as (rid & Hgrp & Hg).
  destruct (Forall2_lookup_l _ _ _ _ _ Htiles Hg) as (t & Ht & Hres).
  exists rid, t. done.
Qed.

Lemma DecodedLayers_tile_at_witness :
  length [DecodedLayer.mk [tile_ground_3] None false]
  = length (Map.Layers map_one_layer) /\
  forall (i : nat) (l : Layer.t) (d : DecodedLayer.t) (b : list byte) (x y : Z),
    Map.Layers map_one_layer !! i = Some l ->
    [DecodedLayer.mk [tile_ground_3] None false] !! i = Some d ->
    decodeBytes (example_lib map_one_layer) (Layer.Data l) = Return b None ->
    len b <= max_int ->
    is_int (Layer.Width l * Layer.Height l * 4) ->
    0 <= x < Layer.Width l -> 0 <= y < Layer.Height l ->
    exists rid t,
      group b (Z.to_nat (y * Layer.Width l + x)) = Some rid /\
      DecodeGID map_one_layer rid = Return t None /\
      DecodedLayer.DecodedTiles d !! Z.to_nat (y * Layer.Width l + x) = Some t.
Proof.
  apply (DecodedLayers_tile_at (example_lib map_one_layer) map_one_layer).
  vm_compute. reflexivity.
Defined.

Lemma DecodeGID_Nil_iff_zero (m : Map.t) (g : GID) (t : DecodedTile.t) :
  DecodeGID m g = Return t None -> (DecodedTile.Nil t = true <-> g = 0).
Proof.
  intros Hrun. destruct (Z.eq_dec g 0) as [->|Hnz].
  - rewrite DecodeGID_zero in Hrun. by injection Hrun as <-.
  - destruct (DecodeGID_success_inv m g t Hnz Hrun) as (i & ts & _ & _ & ->).
    split; [discriminate | done].
Qed.

Lemma resolved_tiles_all_nil (m : Map.t) (gids : list GID)
    (tiles : list DecodedTile.t) :
  Forall2 (fun g t => DecodeGID m g = Return t None) gids tiles ->
  (forall t, t ∈ tiles -> DecodedTile.Nil t = true) <->
  Forall (fun g => g = 0) gids.
Proof.
  induction 1 as [|g t gids tiles Hg _ IH].
  - split; [constructor | intros _ t Hin; by apply elem_of_nil in Hin].
  - pose proof (DecodeGID_Nil_iff_zero m g t Hg) as Hnil. split.
    + intros Hall. constructor.
      * apply Hnil, Hall. left.
      * apply IH. intros t' Hin. apply Hall. by right.
    + intros [Hg0 Hrest]%Forall_cons t' [->|Hin]%elem_of_cons.
      * by apply Hnil.
      * by apply IH.
Qed.

(** X15 — a decoded layer is classified as empty exactly when every RID of
    its layer is 0: on a decoded layer that [DecodedLayers] returns,
    [getTileset] answers no tileset, empty and not multi if and only if
    [Layer.Decode] gave only zeros for the layer. *)
Theorem DecodedLayers_empty_iff_zero (L : Lib) (m : Map.t)
    (ds : list DecodedLayer.t) (i : nat) (l : Layer.t) (d : DecodedLayer.t)
    (gids : list GID) :
  DecodedLayers L m = Return ds None ->
  Map.Layers m !! i = Some l -> ds !! i = Some d ->
  Layer_Decode L l = Return gids None ->
  getTileset m d = (None, true, false) <-> Forall (fun g => g = 0) gids.
Proof.
  intros Hrun Hl Hd Hdec.
  pose proof (DecodedLayers_success_inv L m ds Hrun) as Hall.
  destruct (Forall2_lookup_lr _ _ _ _ _ _ Hall Hl Hd)
    as (gids' & Hdec' & Htiles & _).
  rewrite Hdec in Hdec'. injection Hdec' as <-.
  rewrite <- (resolved_tiles_all_nil m gids _ Htiles).
  assert (Hok : Forall decoded_tile_ok (DecodedLayer.DecodedTiles d)).
  { eapply Forall2_Forall_r; [exact Htiles|].
    apply Forall_forall. intros g _ t Hg. by apply (DecodeGID_tile_ok m g). }
  unfold getTileset. split; [|apply getTileset_loop_all_nil].
  intros Hempty.
  destruct (tiles_three_kinds (DecodedLayer.DecodedTiles d))
    as [Hnil | [(p & Hex & Hsame) | Hmulti]]; [done | |].
  - destruct (getTileset_loop_uniform _ p Hok Hex Hsame) as [Hu _].
    rewrite Hu in Hempty. discriminate.
  - destruct (getTileset_loop_multi _ Hok Hmulti) as [j Hj].
    rewrite Hj in Hempty. discriminate.
Qed.

Lemma DecodedLayers_empty_iff_zero_witness :
  getTileset map_one_layer (DecodedLayer.mk [tile_ground_3] None false)
  = (None, true, false) <-> Forall (fun g => g = 0) [4].
Proof.
  apply (DecodedLayers_empty_iff_zero (example_lib map_one_layer)
           map_one_layer [DecodedLayer.mk [tile_ground_3] None false]
           0%nat layer_one_tile).
  - vm_compute. reflexivity.
  - reflexivity.
  - reflexivity.
  - vm_compute. reflexivity.
Defined.

(** ** Read and ReadFile *)

Lemma DecodedLayers_error_no_layers (L : Lib) (m : Map.t)
    (ds : list DecodedLayer.t) (e : error) :
  DecodedLayers L m = Return ds (Some e) -> ds = [].
Proof.
  unfold DecodedLayers. intros Hrun.
  destruct (DecodedLayers_loop_inv L m (Map.Layers m) [])
    as [(ds' & Hds & Hrun') | [(pre & l & post & e' & _ & _ & _ & Hrun') | Hrun']];
    rewrite Hrun' in Hrun; try discriminate.
  by injection Hrun as <- _.
Qed.

(** What [Read] returns, case by case. *)
Lemma Read_inv (L : Lib) (r : list byte) (v : option Map.t)
    (err : option error) :
  Read L r = Return v err ->
  (exists out ds, v = Some out /\ err = None /\
                  xml_Decode L r = (out, None) /\
                  DecodedLayers L out = Return ds None) \/
  (exists e, v = None /\ err = Some e /\
             ((exists out, xml_Decode L r = (out, Some e)) \/
              (exists out, xml_Decode L r = (out, None) /\
                           DecodedLayers L out = Return [] (Some e)))).
Proof.
  unfold Read. destruct (xml_Decode L r) as [out [e|]] eqn:Hx.
  - intros [= <- <-]. right. exists e. eauto.
  - destruct (DecodedLayers L out) as [ds [e|]|] eqn:Hd; [| |done].
    + intros [= <- <-]. right. exists e. split; [done|]. split; [done|].
      right. exists out. split; [done|].
      by rewrite (DecodedLayers_error_no_layers L out ds e Hd) in Hd.
    + intros [= <- <-]. left. exists out, ds. done.
Qed.

(** X16 — [Read] is all or nothing.  It returns a map, and then no error,
    exactly when the XML decoder accepts the document and every layer of
    the decoded map decodes with every RID resolving; the map is the one
    the XML decoder produced.  Otherwise it returns no map, with the error
    of the XML decoder or the first error of [DecodedLayers]. *)
Theorem Read_all_or_nothing (L : Lib) (r : list byte) :
  (forall out,
      Read L r = Return (Some out) None <->
      xml_Decode L r = (out, None) /\
      exists ds, DecodedLayers L out = Return ds None) /\
  (forall v e,
      Read L r = Return v (Some e) ->
      v = None /\
      ((exists out, xml_Decode L r = (out, Some e)) \/
       (exists out, xml_Decode L r = (out, None) /\
                    DecodedLayers L out = Return [] (Some e)))) /\
  Read L r <> Return None None.
Proof.
  split; [|split].
  - intros out. split.
    + intros Hrun.
      destruct (Read_inv L r _ _ Hrun)
        as [(out' & ds & [= <-] & _ & Hx & Hd) | (e & [=] & _)].
      eauto.
    + intros [Hx [ds Hd]]. unfold Read. by rewrite Hx, Hd.
  - intros v e Hrun.
    destruct (Read_inv L r _ _ Hrun)
      as [(out' & ds & _ & [=] & _) | (e' & -> & [= <-] & Hwhy)].
    done.
  - intros Hrun.
    destruct (Read_inv L r _ _ Hrun)
      as [(out' & ds & [=] & _) | (e & _ & [=] & _)].
Qed.

Lemma Read_all_or_nothing_witness :
  (Read (example_lib map_csv_layer) []
   = Return None (Some ErrUnsupportedCompression)) /\
  (xml_Decode (example_lib map_one_layer) [] = (map_one_layer, None)).
Proof.
  split; [vm_compute; reflexivity|].
  apply (proj1 (proj1 (Read_all_or_nothing (example_lib map_one_layer) [])
                  map_one_layer)).
  vm_compute. reflexivity.
Defined.

(** X17 — [ReadFile] returns what [Read] returns on the contents of the
    file: a map, and no error, exactly when the file opens, the XML
    decoder accepts its contents and every layer decodes with every RID
    resolving.  When the file does not open it returns no map and the
    error of [os.Open], and every error comes without a map. *)
Theorem ReadFile_all_or_nothing (L : Lib)
    (os_Open : string -> list byte * option error) (filepath : string) :
  (forall out,
      ReadFile L os_Open filepath = Return (Some out) None <->
      exists f ds,
        os_Open filepath = (f, None) /\ xml_Decode L f = (out, None) /\
        DecodedLayers L out = Return ds None) /\
  (forall f e, os_Open filepath = (f, Some e) ->
               ReadFile L os_Open filepath = Return None (Some e)) /\
  (forall v e, ReadFile L os_Open filepath = Return v (Some e) -> v = None) /\
  ReadFile L os_Open filepath <> Return None None.
Proof.
  unfold ReadFile. destruct (os_Open filepath) as [f [e|]] eqn:Ho.
  - split; [|split; [|split]].
    + intros out. split; [discriminate|].
      intros (f' & ds & [=] & _).
    + by intros f' e' [= <- <-].
    + by intros v e' [= <- <-].
    + discriminate.
  - split; [|split; [|split]].
    + intros out. split.
      * destruct (Read L f) as [v [e|]|] eqn:Hr; try discriminate.
        intros [= ->].
        destruct (Read_inv L f _ _ Hr)
          as [(out' & ds & [= <-] & _ & Hx & Hd) | (e & [=] & _)].
        exists f, ds. done.
      * intros (f' & ds & [= <-] & Hx & Hd).
        unfold Read. by rewrite Hx, Hd.
    + intros f' e [=].
    + intros v e. destruct (Read L f) as [v' [e'|]|]; try discriminate.
      by intros [= <- <-].
    + destruct (Read L f) as [v [e|]|] eqn:Hr; try discriminate.
      intros [= ->].
      destruct (Read_inv L f _ _ Hr)
        as [(out' & ds & [=] & _) | (e & _ & [=] & _)].
Qed.

Lemma ReadFile_all_or_nothing_witness :
  ReadFile (example_lib map_one_layer)
    (fun _ => ([], Some (LibError 2))) "missing.tmx"
  = Return None (Some (LibError 2)).
Proof.
  apply (proj1 (proj2 (ReadFile_all_or_nothing (example_lib map_one_layer)
                         (fun _ => ([], Some (LibError 2))) "missing.tmx"))
           [] (LibError 2)).
  reflexivity.
Defined.

(** ** Polygon.Decode *)

Lemma Split_parts_length (s : string) (c : ascii) :
  length (Split_parts s c).2 = count_char c s.
Proof.
  induction s as [|c' s IH]; [reflexivity|]. simpl.
  destruct (Split_parts s c) as [part parts]. simpl in IH.
  destruct (Ascii.eqb c' c); simpl; lia.
Qed.

Lemma Split_length (s : string) (c : ascii) :
  length (Split s c) = S (count_char c s).
Proof.
  unfold Split. pose proof (Split_parts_length s c) as H.
  destruct (Split_parts s c). simpl in *. lia.
Qed.

Lemma parseUint_nonneg (s : string) :
  forall n, 0 <= n -> 0 <= (parseUint s n).1.
Proof.
  induction s as [|c s IH]; intros n Hn; simpl; [done|].
  unfold digit. destruct (_ && _) eqn:Hd; [|simpl; lia].
  apply andb_true_iff in Hd as [Hlo Hhi].
  apply Z.leb_le in Hlo. apply Z.leb_le in Hhi.
  destruct (_ <? _); [simpl; unfold max_uint64; lia|].
  apply IH. lia.
Qed.

Lemma Atoi_is_int (s : string) (v : Z) : Atoi s = (v, None) -> is_int v.
Proof.
  unfold Atoi.
  set (sb := match s with
             | String "-"%char r => (true, r)
             | String "+"%char r => (false, r)
             | _ => (false, s)
             end).
  destruct sb as [neg body]. destruct body as [|c body]; [discriminate|].
  pose proof (parseUint_nonneg (String c body) 0 ltac:(lia)) as Hnn.
  destruct (parseUint (String c body) 0) as [un [[]|]]; simpl in Hnn;
    try discriminate;
    unfold is_int, min_int, max_int in *;
    destruct neg; simpl;
    repeat match goal with
           | |- context [?a <? ?b] => destruct (Z.ltb_spec a b); simpl
           end;
    intros [= <-]; lia.
Qed.

(** A successful run, spelled out. *)
Lemma Polygon_Decode_success_inv (p : Polygon.t) (pts : list Point.t) :
  Polygon_Decode p = Return pts None ->
  Forall2 part_parses (Split (Polygon.Points p) " "%char) pts.
Proof.
  intros Hrun.
  destruct (parts_parse_or_fail (Split (Polygon.Points p) " "%char))
    as [[pts' Hpts] | (pre & part & post & e & Hs & Hpre & Hf)].
  - rewrite (Polygon_Decode_ok p pts' Hpts) in Hrun. by injection Hrun as <-.
  - rewrite (Polygon_Decode_fail p pre post part e Hs Hpre Hf) in Hrun.
    discriminate.
Qed.

(** X18 — the points [Polygon.Decode] returns.  On success there is one
    point for each space-separated part, that is one more than the string
    has spaces, and every coordinate is in the range of [int]. *)
Theorem Polygon_Decode_points (p : Polygon.t) (pts : list Point.t) :
  Polygon_Decode p = Return pts None ->
  length pts = S (count_char " " (Polygon.Points p)) /\
  Forall (fun pt => is_int (Point.X pt) /\ is_int (Point.Y pt)) pts.
Proof.
  intros Hrun. pose proof (Polygon_Decode_success_inv p pts Hrun) as Hall.
  split.
  - rewrite <- (Forall2_length _ _ _ Hall). apply Split_length.
  - eapply Forall2_Forall_r; [exact Hall|].
    apply Forall_forall. intros part _ pt (a & b & _ & Ha & Hb).
    split; eapply Atoi_is_int; eassumption.
Qed.

Lemma Polygon_Decode_points_witness :
  length [Point.mk 0 0; Point.mk 10 0; Point.mk (-3) 7]
  = S (count_char " " "0,0 10,0 -3,+7") /\
  Forall (fun pt => is_int (Point.X pt) /\ is_int (Point.Y pt))
         [Point.mk 0 0; Point.mk 10 0; Point.mk (-3) 7].
Proof.
  apply (Polygon_Decode_points (Polygon.mk "0,0 10,0 -3,+7")).
  reflexivity.
Defined.

(** X19 — [Polygon.Decode] never panics: the indices it uses stay inside
    [coords] and [out], whatever the string. *)
Theorem Polygon_Decode_no_panic (p : Polygon.t) : Polygon_Decode p <> Panic.
Proof.
  destruct (parts_parse_or_fail (Split (Polygon.Points p) " "%char))
    as [[pts Hpts] | (pre & part & post & e & Hs & Hpre & Hf)].
  - by rewrite (Polygon_Decode_ok p pts Hpts).
  - by rewrite (Polygon_Decode_fail p pre post part e Hs Hpre Hf).
Qed.

Lemma Split_cons_sep (s : string) (c : ascii) :
  Split (String c s) c = EmptyString :: Split s c.
Proof.
  unfold Split. simpl. destruct (Split_parts s c) as [part parts].
  by rewrite Ascii.eqb_refl.
Qed.

Lemma Split_app (s1 s2 : string) (c : ascii) :
  Split (String.append s1 (String c s2)) c = Split s1 c ++ Split s2 c.
Proof.
  induction s1 as [|a s1 IH]; [apply Split_cons_sep|].
  unfold Split in *. simpl.
  destruct (Split_parts (String.append s1 (String c s2)) c) as [part parts].
  destruct (Split_parts s1 c) as [p1 ps1].
  destruct (Split_parts s2 c) as [p2 ps2].
  simpl in IH. injection IH as -> ->.
  destruct (Ascii.eqb a c); reflexivity.
Qed.

Lemma empty_part_fails (pt : Point.t) : ~ part_parses EmptyString pt.
Proof. intros (a & b & Hs & _). discriminate. Qed.

Lemma Polygon_Decode_empty_part (p : Polygon.t) :
  EmptyString ∈ Split (Polygon.Points p) " "%char ->
  exists e, Polygon_Decode p = Return [] (Some e).
Proof.
  intros Hin.
  destruct (parts_parse_or_fail (Split (Polygon.Points p) " "%char))
    as [[pts Hpts] | (pre & part & post & e & Hs & Hpre & Hf)].
  - apply list_elem_of_lookup in Hin as [i Hi].
    destruct (Forall2_lookup_l _ _ _ _ _ Hpts Hi) as (pt & _ & Hpt).
    by destruct (empty_part_fails pt).
  - exists e. by apply (Polygon_Decode_fail p pre post part e).
Qed.

(** X20 — stray spaces make [Polygon.Decode] fail.  A points string that
    ends with a space, begins with a space, or has two spaces in a row
    has an empty part, and decoding it returns an error and no points. *)
Theorem Polygon_Decode_stray_space :
  (forall s, exists e,
      Polygon_Decode (Polygon.mk (String.append s " ")) = Return [] (Some e)) /\
  (forall s, exists e,
      Polygon_Decode (Polygon.mk (String " " s)) = Return [] (Some e)) /\
  (forall s1 s2, exists e,
      Polygon_Decode (Polygon.mk (String.append s1 (String " " (String " " s2))))
      = Return [] (Some e)).
Proof.
  split; [|split].
  - intros s. apply Polygon_Decode_empty_part. simpl.
    rewrite (Split_app s EmptyString " "). apply elem_of_app. right. left.
  - intros s. apply Polygon_Decode_empty_part. simpl.
    rewrite Split_cons_sep. left.
  - intros s1 s2. apply Polygon_Decode_empty_part. simpl.
    rewrite Split_app, Split_cons_sep. apply elem_of_app. right. left.
Qed.

Lemma parseUint_chars (s : string) :
  forall n v, parseUint s n = (v, None) -> all_chars point_char s = true.
Proof.
  induction s as [|c s IH]; intros n v; simpl; [done|].
  unfold point_char at 1. destruct (digit c) as [d|]; [|discriminate].
  destruct (_ <? _); [discriminate|]. apply IH.
Qed.

Lemma parseUint_range (s : string) :
  forall n un, parseUint s n = (un, Some ErrRange) -> un = max_uint64.
Proof.
  induction s as [|c s IH]; intros n un; simpl; [discriminate|].
  destruct (digit c) as [d|]; [|discriminate].
  destruct (_ <? _); [by intros [= <-] | apply IH].
Qed.

Lemma Atoi_sign_cases (s : string) :
  let sb := match s with
            | String "-"%char r => (true, r)
            | String "+"%char r => (false, r)
            | _ => (false, s)
            end in
  (exists r, s = String "-"%char r /\ sb.2 = r) \/
  (exists r, s = String "+"%char r /\ sb.2 = r) \/
  sb.2 = s.
Proof.
  destruct s as [|c r]; [by right; right|].
  destruct c as [[] [] [] [] [] [] [] []]; simpl; eauto.
Qed.

Lemma Atoi_chars (s : string) (v : Z) :
  Atoi s = (v, None) -> all_chars point_char s = true.
Proof.
  unfold Atoi. pose proof (Atoi_sign_cases s) as Hs. simpl in Hs.
  destruct (match s with
            | String "-"%char r => (true, r)
            | String "+"%char r => (false, r)
            | _ => (false, s)
            end) as [neg body].
  simpl in Hs. destruct body as [|c body]; [discriminate|].
  destruct (parseUint (String c body) 0) as [un [[]|]] eqn:Hp;
    try discriminate.
  - apply parseUint_range in Hp as ->. by destruct neg.
  - intros _. apply parseUint_chars in Hp.
    destruct Hs as [(r & -> & <-) | [(r & -> & <-) | <-]]; simpl; done.
Qed.

Lemma Split_parts_chars (f : ascii -> bool) (c : ascii) (s : string) :
  f c = true ->
  all_chars f (Split_parts s c).1 = true ->
  Forall (fun q => all_chars f q = true) (Split_parts s c).2 ->
  all_chars f s = true.
Proof.
  intros Hc. induction s as [|a s IH]; [done|]. simpl.
  destruct (Split_parts s c) as [part parts]. simpl in IH.
  destruct (Ascii.eqb_spec a c) as [->|Hne]; simpl.
  - intros _ [Hp Hps]%Forall_cons. rewrite Hc. simpl. by apply IH.
  - intros [Ha Hp]%andb_true_iff Hps. rewrite Ha. simpl. by apply IH.
Qed.

Lemma Split_chars (f : ascii -> bool) (c : ascii) (s : string) :
  f c = true ->
  Forall (fun q => all_chars f q = true) (Split s c) ->
  all_chars f s = true.
Proof.
  intros Hc. unfold Split. pose proof (Split_parts_chars f c s Hc) as H.
  destruct (Split_parts s c) as [part parts]. simpl in H.
  intros [Hp Hps]%Forall_cons. by apply H.
Qed.

Lemma part_parses_chars (part : string) (pt : Point.t) :
  part_parses part pt -> all_chars point_char part = true.
Proof.
  intros (a & b & Hs & Ha & Hb).
  apply (Split_chars point_char ","%char); [reflexivity|].
  rewrite Hs. repeat constructor; eapply Atoi_chars; eassumption.
Qed.

(** X21 — [Polygon.Decode] accepts integers only.  A points string that
    holds any character besides the decimal digits, the signs, the comma
    and the space (a decimal point, an exponent, a tab, a line break)
    fails: an error is returned, and no points. *)
Theorem Polygon_Decode_other_characters (p : Polygon.t) :
  all_chars point_char (Polygon.Points p) = false ->
  exists e, Polygon_Decode p = Return [] (Some e).
Proof.
  intros Hbad.
  destruct (parts_parse_or_fail (Split (Polygon.Points p) " "%char))
    as [[pts Hpts] | (pre & part & post & e & Hs & Hpre & Hf)].
  - assert (Hgood : all_chars point_char (Polygon.Points p) = true).
    { apply (Split_chars point_char " "%char); [reflexivity|].
      eapply Forall2_Forall_l; [exact Hpts|].
      apply Forall_forall. intros pt _ part Hp.
      by apply (part_parses_chars part pt). }
    congruence.
  - exists e. by apply (Polygon_Decode_fail p pre post part e).
Qed.

Lemma Polygon_Decode_other_characters_witness :
  exists e, Polygon_Decode (Polygon.mk "0,0 15.5,3") = Return [] (Some e).
Proof.
  apply Polygon_Decode_other_characters. reflexivity.
Defined.

(** ** Writing and reading points *)

Lemma of_uint_acc_horner (d : Decimal.uint) :
  forall acc, Z.pos (Pos.of_uint_acc d acc) = horner d (Z.pos acc).
Proof.
  induction d as [|l IH|l IH|l IH|l IH|l IH|l IH|l IH|l IH|l IH|l IH];
    intros acc; simpl; [reflexivity | rewrite IH; f_equal; lia ..].
Qed.

Lemma of_uint_horner (d : Decimal.uint) :
  Z.of_N (Pos.of_uint d) = horner d 0.
Proof.
  induction d as [|l IH|l IH|l IH|l IH|l IH|l IH|l IH|l IH|l IH|l IH];
    simpl; [reflexivity | exact IH | apply of_uint_acc_horner ..].
Qed.

Lemma horner_ge (d : Decimal.uint) : forall acc, 0 <= acc -> acc <= horner d acc.
Proof.
  induction d as [|l IH|l IH|l IH|l IH|l IH|l IH|l IH|l IH|l IH|l IH];
    intros acc Hacc; simpl; [lia | ..];
    match goal with
    | |- _ <= horner _ ?a => specialize (IH a ltac:(lia)); lia
    end.
Qed.

Lemma parseUint_string_of_uint (d : Decimal.uint) :
  forall n, 0 <= n -> horner d n <= max_uint64 ->
            parseUint (DecimalString.NilEmpty.string_of_uint d) n
            = (horner d n, None).
Proof.
  induction d as [|l IH|l IH|l IH|l IH|l IH|l IH|l IH|l IH|l IH|l IH];
    intros n Hn Hmax; [reflexivity | ..];
    cbn [DecimalString.NilEmpty.string_of_uint parseUint horner] in *;
    match goal with
    | |- context [digit ?c] =>
        let v := eval vm_compute in (digit c) in change (digit c) with v
    end;
    cbv iota;
    match goal with
    | H : horner l ?a <= _ |- _ =>
        pose proof (horner_ge l a ltac:(lia));
        destruct (Z.ltb_spec max_uint64 a); [lia | apply IH; [lia | done]]
    end.
Qed.

Lemma string_of_uint_nonempty (d : Decimal.uint) :
  d <> Decimal.Nil ->
  exists c r, DecimalString.NilEmpty.string_of_uint d = String c r /\
              digit c <> None.
Proof.
  destruct d; [done | ..]; intros _; simpl; eexists _, _;
    (split; [reflexivity | discriminate]).
Qed.

Lemma Atoi_digits_first (c : ascii) (r : string) :
  digit c <> None ->
  Atoi (String c r)
  = match parseUint (String c r) 0 with
    | (_, Some ErrSyntax) => (0, Some (NumError (String c r) ErrSyntax))
    | (un, _) =>
        if max_int <? un then (max_int, Some (NumError (String c r) ErrRange))
        else (un, None)
    end.
Proof.
  intros Hd. unfold Atoi.
  destruct c as [[] [] [] [] [] [] [] []]; try (by destruct Hd);
    reflexivity.
Qed.

Lemma Atoi_Itoa (z : Z) : is_int z -> Atoi (Itoa z) = (z, None).
Proof.
  unfold is_int, min_int, max_int. intros Hz. destruct z as [|p|p].
  - reflexivity.
  - unfold Itoa. simpl.
    assert (Hval : horner (Pos.to_uint p) 0 = Z.pos p).
    { rewrite <- of_uint_horner, DecimalPos.Unsigned.of_to. reflexivity. }
    destruct (string_of_uint_nonempty (Pos.to_uint p)
                (DecimalPos.Unsigned.to_uint_nonnil p)) as (c & r & Hs & Hd).
    pose proof (parseUint_string_of_uint (Pos.to_uint p) 0 ltac:(lia)) as Hp.
    rewrite Hval in Hp. rewrite Hs in *.
    rewrite (Atoi_digits_first c r Hd), Hp by (unfold max_uint64; lia).
    unfold max_int. destruct (Z.ltb_spec (2 ^ 63 - 1) (Z.pos p)); [lia | done].
  - unfold Itoa. simpl.
    assert (Hval : horner (Pos.to_uint p) 0 = Z.pos p).
    { rewrite <- of_uint_horner, DecimalPos.Unsigned.of_to. reflexivity. }
    destruct (string_of_uint_nonempty (Pos.to_uint p)
                (DecimalPos.Unsigned.to_uint_nonnil p)) as (c & r & Hs & Hd).
    pose proof (parseUint_string_of_uint (Pos.to_uint p) 0 ltac:(lia)) as Hp.
    rewrite Hval in Hp. rewrite Hs in *.
    unfold Atoi. rewrite Hp by (unfold max_uint64; lia). simpl.
    unfold min_int. destruct (Z.ltb_spec (- - 2 ^ 63) (Z.pos p)); [lia | done].
Qed.

Lemma count_char_app (c : ascii) (s1 s2 : string) :
  count_char c (String.append s1 s2)
  = (count_char c s1 + count_char c s2)%nat.
Proof. induction s1 as [|a s1 IH]; simpl; [done | rewrite IH; lia]. Qed.

Lemma string_of_uint_no_separator (d : Decimal.uint) :
  count_char "," (DecimalString.NilEmpty.string_of_uint d) = 0%nat /\
  count_char " " (DecimalString.NilEmpty.string_of_uint d) = 0%nat.
Proof.
  induction d as [|l IH|l IH|l IH|l IH|l IH|l IH|l IH|l IH|l IH|l IH];
    simpl; [done | exact IH ..].
Qed.

Lemma Itoa_no_separator (z : Z) :
  count_char "," (Itoa z) = 0%nat /\ count_char " " (Itoa z) = 0%nat.
Proof.
  unfold Itoa. destruct z as [|p|p]; simpl; [done | ..];
    apply string_of_uint_no_separator.
Qed.

Lemma Split_no_separator (s : string) (c : ascii) :
  count_char c s = 0%nat -> Split s c = [s].
Proof.
  unfold Split. induction s as [|a s IH]; [reflexivity|]. simpl.
  destruct (Ascii.eqb a c); [discriminate|]. simpl. intros H0.
  specialize (IH H0). destruct (Split_parts s c) as [part parts].
  by injection IH as -> ->.
Qed.

Lemma format_point_parses (pt : Point.t) :
  is_int (Point.X pt) -> is_int (Point.Y pt) ->
  part_parses (format_point pt) pt.
Proof.
  intros HX HY. exists (Itoa (Point.X pt)), (Itoa (Point.Y pt)).
  split; [|split; by apply Atoi_Itoa].
  unfold format_point.
  rewrite Split_app, !Split_no_separator by apply Itoa_no_separator.
  reflexivity.
Qed.

Lemma format_point_no_space (pt : Point.t) :
  count_char " " (format_point pt) = 0%nat.
Proof.
  unfold format_point. rewrite count_char_app. simpl.
  destruct (Itoa_no_separator (Point.X pt)) as [_ ->].
  destruct (Itoa_no_separator (Point.Y pt)) as [_ ->]. reflexivity.
Qed.

Lemma Split_format_points (pt : Point.t) (pts : list Point.t) :
  Split (format_points (pt :: pts)) " " = format_point <$> (pt :: pts).
Proof.
  revert pt. induction pts as [|pt' pts IH]; intros pt.
  - simpl. apply Split_no_separator, format_point_no_space.
  - change (format_points (pt :: pt' :: pts))
      with (String.append (format_point pt)
              (String " " (format_points (pt' :: pts)))).
    rewrite Split_app, IH, Split_no_separator by apply format_point_no_space.
    reflexivity.
Qed.

(** X22 — writing and reading points.  For every non-empty list of points
    whose coordinates are in the range of [int], [Polygon.Decode] of their
    text (decimal [x,y] pairs separated by one space) returns exactly
    those points, in order. *)
Theorem Polygon_Decode_format_points (pts : list Point.t) :
  pts <> [] ->
  Forall (fun pt => is_int (Point.X pt) /\ is_int (Point.Y pt)) pts ->
  Polygon_Decode (Polygon.mk (format_points pts)) = Return pts None.
Proof.
  intros Hne Hall. destruct pts as [|pt pts]; [done|].
  apply Polygon_Decode_ok. cbn [Polygon.Points].
  rewrite Split_format_points. apply Forall2_fmap_l.
  apply Forall_Forall2_diag.
  eapply Forall_impl; [exact Hall|].
  intros pt' [HX HY]. by apply format_point_parses.
Qed.

Lemma Polygon_Decode_format_points_witness :
  format_points [Point.mk 0 0; Point.mk 10 0; Point.mk (-3) 7]
  = "0,0 10,0 -3,7"%string /\
  Polygon_Decode (Polygon.mk "0,0 10,0 -3,7")
  = Return [Point.mk 0 0; Point.mk 10 0; Point.mk (-3) 7] None.
Proof.
  split; [reflexivity|].
  apply (Polygon_Decode_format_points
           [Point.mk 0 0; Point.mk 10 0; Point.mk (-3) 7]).
  - discriminate.
  - repeat constructor; simpl; unfold is_int, min_int, max_int; lia.
Defined.

(** ** Flags and layers *)

Lemma DecodeGID_loop_same_masked (m : Map.t) (g g' : GID) (n : nat) :
  umaskedGID g = umaskedGID g' ->
  match DecodeGID_loop m g n, DecodeGID_loop m g' n with
  | Return t None, Return t' None =>
      DecodedTile.Tileset t = DecodedTile.Tileset t' /\
      DecodedTile.ID t = DecodedTile.ID t' /\
      DecodedTile.Nil t = DecodedTile.Nil t'
  | Return t (Some e), Return t' (Some e') => t = t' /\ e = e'
  | Panic, Panic => True
  | _, _ => False
  end.
Proof.
  intros Heq. induction n as [|k IH]; simpl; [done|].
  destruct (Map.Tilesets m !! k) as [ts|]; [|done].
  rewrite <- Heq. destruct (_ <=? _); [done | exact IH].
Qed.

(** X23 — the flag bits do not change which tile a RID names.  Two
    nonzero RIDs in the range of [uint32] with the same low 29 bits
    either both fail with the same error, or resolve to tiles of the same
    tileset with the same local index. *)
Theorem DecodeGID_flags_do_not_move_tile (m : Map.t) (g g' : GID) :
  is_u32 g -> is_u32 g' -> g <> 0 -> g' <> 0 ->
  low_bits 29 g = low_bits 29 g' ->
  match DecodeGID m g, DecodeGID m g' with
  | Return t None, Return t' None =>
      DecodedTile.Tileset t = DecodedTile.Tileset t' /\
      DecodedTile.ID t = DecodedTile.ID t' /\
      DecodedTile.Nil t = DecodedTile.Nil t'
  | Return t (Some e), Return t' (Some e') => t = t' /\ e = e'
  | Panic, Panic => True
  | _, _ => False
  end.
Proof.
  intros Hg Hg' Hnz Hnz' Hlow. rewrite !DecodeGID_nonzero by done.
  apply DecodeGID_loop_same_masked.
  by rewrite !umaskedGID_low_bits.
Qed.

Lemma DecodeGID_flags_do_not_move_tile_witness :
  match DecodeGID map_1_5 7, DecodeGID map_1_5 0xC0000007 with
  | Return t None, Return t' None =>
      DecodedTile.Tileset t = DecodedTile.Tileset t' /\
      DecodedTile.ID t = DecodedTile.ID t' /\
      DecodedTile.Nil t = DecodedTile.Nil t'
  | Return t (Some e), Return t' (Some e') => t = t' /\ e = e'
  | Panic, Panic => True
  | _, _ => False
  end.
Proof.
  apply DecodeGID_flags_do_not_move_tile.
  - unfold is_u32. lia.
  - unfold is_u32. simpl. lia.
  - discriminate.
  - discriminate.
  - reflexivity.
Defined.

Lemma DecodeGID_same_tilesets (m m' : Map.t) (g : GID) :
  Map.Tilesets m = Map.Tilesets m' -> DecodeGID m g = DecodeGID m' g.
Proof.
  intros Heq. unfold DecodeGID. destruct (g =? 0); [reflexivity|].
  rewrite Heq. apply DecodeGID_loop_same_firsts. by rewrite Heq.
Qed.

Lemma layer_decodes_same_tilesets (L : Lib) (m m' : Map.t)
    (ls : list Layer.t) (ds : list DecodedLayer.t) :
  Map.Tilesets m = Map.Tilesets m' ->
  Forall2 (layer_decodes L m) ls ds -> Forall2 (layer_decodes L m') ls ds.
Proof.
  intros Heq Hall. eapply Forall2_impl; [exact Hall|].
  intros l d (gids & Hdec & Htiles & Hrest). exists gids.
  split; [done|]. split; [|done].
  eapply Forall2_impl; [exact Htiles|].
  intros g t Hg. simpl. by rewrite <- (DecodeGID_same_tilesets m m' g Heq).
Qed.

(** X24 — layers are decoded independently.  Over the same tilesets, the
    layers [la ++ lb] decode without error exactly when [la] and [lb]
    both do, and the decoded layers are then those of [la] followed by
    those of [lb]. *)
Theorem DecodedLayers_app (L : Lib) (w h tw th : Z)
    (tilesets : list Tileset.t) (la lb : list Layer.t)
    (ds : list DecodedLayer.t) :
  DecodedLayers L (Map.mk w h tw th tilesets (la ++ lb)) = Return ds None <->
  exists da db,
    ds = da ++ db /\
    DecodedLayers L (Map.mk w h tw th tilesets la) = Return da None /\
    DecodedLayers L (Map.mk w h tw th tilesets lb) = Return db None.
Proof.
  set (mab := Map.mk w h tw th tilesets (la ++ lb)).
  set (ma := Map.mk w h tw th tilesets la).
  set (mb := Map.mk w h tw th tilesets lb).
  split.
  - intros Hrun. apply DecodedLayers_success_inv in Hrun. simpl in Hrun.
    apply Forall2_app_inv_l in Hrun as (da & db & Ha & Hb & ->).
    exists da, db. split; [done|]. split.
    + apply (DecodedLayers_loop_ok L ma la da []).
      by apply (layer_decodes_same_tilesets L mab ma).
    + apply (DecodedLayers_loop_ok L mb lb db []).
      by apply (layer_decodes_same_tilesets L mab mb).
  - intros (da & db & -> & Ha & Hb).
    apply DecodedLayers_success_inv in Ha, Hb. simpl in Ha, Hb.
    apply (DecodedLayers_loop_ok L mab (la ++ lb) (da ++ db) []).
    apply Forall2_app.
    + by apply (layer_decodes_same_tilesets L ma mab).
    + by apply (layer_decodes_same_tilesets L mb mab).
Qed.

Lemma DecodedLayers_app_witness :
  exists da db,
    [DecodedLayer.mk [tile_ground_3] None false] = da ++ db /\
    DecodedLayers (example_lib map_1_5)
      (Map.mk 1 1 16 16 tilesets_1_5 [layer_one_tile]) = Return da None /\
    DecodedLayers (example_lib map_1_5)
      (Map.mk 1 1 16 16 tilesets_1_5 []) = Return db None.
Proof.
  apply (proj1 (DecodedLayers_app (example_lib map_1_5) 1 1 16 16 tilesets_1_5
                  [layer_one_tile] []
                  [DecodedLayer.mk [tile_ground_3] None false])).
  vm_compute. reflexivity.
Defined.
